(** * ART experiment runner: steps, rerun decision and pipeline loop

    A shallow embedding of [art/step/step.py] (classes [Step] and
    [ModelStep]) and of [art/experiment/Experiment.py] (classes
    [StepStatus] and [ArtProject]).

    Conventions of the embedding.
    - A Python object that the code mutates in place becomes a record
      that is passed in and returned.  In the loop of [run_all] every
      registry record owns its step: the registry lists no step instance
      twice.  The registration itself is also given with step objects
      and references to them, in the module [Ref].
    - Exceptions are explicit: a computation that can raise returns a
      [result]; everything the code catches with [except Exception] is
      an [exn].
    - A step's work [do] is user code.  It is embedded as a function of
      what it can read (the shared step states, the data module, the
      metric calculator of a model step, its own results) to its own new
      results and an optional exception: the results it leaves behind
      when it raises are kept, as in Python.
    - [print] appends a structured line to the console of the [World]. *)

From stdpp Require Import base strings gmap list pretty.

Open Scope Z_scope.

(** ** Values, results and exceptions *)

(** The JSON scalars a results mapping holds. *)
Inductive Value : Type :=
  | VStr (s : string)
  | VNum (z : Z)
  | VBool (b : bool)
  | VNone.

#[global] Instance Value_eq_dec : EqDecision Value.
Proof. solve_decision. Defined.

(** [self.results]: a dict from result names to values. *)
Abbreviation Results := (gmap string Value).

(** [self.state.step_states]: model name, then ["idx_name"], then results. *)
Abbreviation StepStates := (gmap string (gmap string (gmap string Value))).

(** The exceptions of class [Exception], which an [except Exception]
    catches.  [SystemExit], [KeyboardInterrupt] and the like are not
    among them and are outside of this development. *)
Inductive exn : Type :=
  | KeyError (key : string)
  | IndexError
  | FileNotFoundError (step_id step_name : string)
  | CheckFailed (step_name reason : string)
  | UserError (msg : string).

Inductive result (A : Type) : Type :=
  | Ok (a : A)
  | Raise (e : exn).
Arguments Ok {A} a.
Arguments Raise {A} e.

(** ** External collaborators *)

(** The data module is an opaque handle that the runner passes through. *)
Definition DataModule : Type := string.

Definition SkippedMetric : Type := string.

(** Modelled from the spec: [MetricCalculator] is not part of the sources;
    the runner only calls [compile] on it with the skipped metrics of the
    record at hand, which replaces the exclusions in force. *)
Record MetricCalculator : Type := { exclusions : list SkippedMetric }.

Definition compile (skipped : list SkippedMetric) (mc : MetricCalculator)
  : MetricCalculator := {| exclusions := skipped |}.

(** Modelled from the spec: [JSONStepSaver] is not part of the sources.
    The result store holds one results mapping per (step id, step name);
    [save] overwrites it, [load] raises when nothing is stored and
    [get_path(..).exists()] tells whether something is. *)
Abbreviation Store := (gmap (string * string) (gmap string Value)).

Definition saver_save (obj : Results) (step_id step_name : string)
  (store : Store) : Store := <[(step_id, step_name) := obj]> store.

Definition saver_load (step_id step_name : string) (store : Store)
  : result Results :=
  match store !! (step_id, step_name) with
  | Some obj => Ok obj
  | None => Raise (FileNotFoundError step_id step_name)
  end.

Definition saver_exists (step_id step_name : string) (store : Store) : bool :=
  bool_decide (is_Some (store !! (step_id, step_name))).

(** ** Steps *)

(** What the step's work can read besides its own results. *)
Record DoEnv : Type := {
  previous_states : StepStates;
  env_datamodule : option DataModule;
  env_metric_calculator : option MetricCalculator
}.

(** [Step] has the hash of its class source; [ModelStep] wraps a model
    with a class name and a hash of its own. *)
Inductive StepKind : Type :=
  | PlainStep (source_hash : string)
  | ModelStep (model_class_name : string) (model_hash : string).

Record Step : Type := {
  idx : Z;
  name : string;
  kind : StepKind;
  results : Results;
  datamodule : option DataModule;
  metric_calculator : option MetricCalculator;
  do : DoEnv -> Results -> Results * option exn
}.

Definition with_results (r : Results) (s : Step) : Step :=
  {| idx := idx s; name := name s; kind := kind s; results := r;
     datamodule := datamodule s; metric_calculator := metric_calculator s;
     do := do s |}.

Definition with_datamodule (d : DataModule) (s : Step) : Step :=
  {| idx := idx s; name := name s; kind := kind s; results := results s;
     datamodule := Some d; metric_calculator := metric_calculator s;
     do := do s |}.

Definition with_metric_calculator (mc : MetricCalculator) (s : Step) : Step :=
  {| idx := idx s; name := name s; kind := kind s; results := results s;
     datamodule := datamodule s; metric_calculator := Some mc;
     do := do s |}.

(** [f"{self.idx}"] *)
Definition format_int (z : Z) : string := pretty z.

Definition set_step_id (i : Z) (s : Step) : Step :=
  {| idx := i; name := name s; kind := kind s; results := results s;
     datamodule := datamodule s; metric_calculator := metric_calculator s;
     do := do s |}.

Definition get_model_name (s : Step) : string :=
  match kind s with
  | PlainStep _ => ""
  | ModelStep m _ => m
  end.

Definition get_step_id (s : Step) : string :=
  match kind s with
  | PlainStep _ => format_int (idx s)
  | ModelStep _ _ =>
      if bool_decide (get_model_name s ≠ "")
      then get_model_name s +:+ "_" +:+ format_int (idx s)
      else format_int (idx s)
  end.

Definition get_name_with_id (s : Step) : string :=
  format_int (idx s) +:+ "_" +:+ name s.

Definition get_full_step_name (s : Step) : string :=
  get_step_id s +:+ "_" +:+ name s.

Definition get_hash (s : Step) : string :=
  match kind s with
  | PlainStep h => h
  | ModelStep _ h => h
  end.

Definition add_result (k : string) (v : Value) (s : Step) : Step :=
  with_results (<[k := v]> (results s)) s.

Definition get_results (s : Step) : Results := results s.

Definition load_results (s : Step) (store : Store) : result Step :=
  match saver_load (get_step_id s) (name s) store with
  | Ok r => Ok (with_results r s)
  | Raise e => Raise e
  end.

Definition was_run (s : Step) (store : Store) : bool :=
  saver_exists (get_step_id s) (name s) store.

(** ** Checks *)

(** [check.check(step)] answers with [is_positive] and [error], or raises. *)
Record CheckResult : Type := { is_positive : bool; error : string }.

Definition Check : Type := Step -> result CheckResult.

(** ** Status records and the console *)

Inductive Status : Type := NotRun | Skipped | Completed | Failed.

#[global] Instance Status_eq_dec : EqDecision Status.
Proof. solve_decision. Defined.

Record StepStatus : Type := { status : Status; status_results : Results }.

(** [steps_status]: a dict in insertion order, keyed by full step name. *)
Definition StatusDict : Type := list (string * StepStatus).

Fixpoint dict_get (k : string) (d : StatusDict) : option StepStatus :=
  match d with
  | [] => None
  | (k', v) :: d' => if bool_decide (k' = k) then Some v else dict_get k d'
  end.

(** [d[k] = v]: an existing key keeps its place, a new one goes last. *)
Fixpoint dict_set (k : string) (v : StepStatus) (d : StatusDict) : StatusDict :=
  match d with
  | [] => [(k, v)]
  | (k', v') :: d' =>
      if bool_decide (k' = k) then (k, v) :: d' else (k', v') :: dict_set k v d'
  end.

Inductive Line : Type :=
  | LineModelChanged (full_step_name : string)
  | LineStepFailed (full_step_name : string) (e : exn)
  | LineStepsStatus
  | LineStatus (step_name : string) (st : Status) (shown : Results).

(** What lives outside the project object: the result store and stdout. *)
Record World : Type := { store : Store; console : list Line }.

Definition print (l : Line) (w : World) : World :=
  {| store := store w; console := console w ++ [l] |}.

Definition with_store (st : Store) (w : World) : World :=
  {| store := st; console := console w |}.

(** [StepStatus.__repr__] leaves the ["hash"] entry out. *)
Definition StepStatus_repr (step_name : string) (st : StepStatus) : Line :=
  LineStatus step_name (status st) (delete "hash" (status_results st)).

(** ** [Step.__call__] and [ModelStep.__call__] *)

Definition run_do (s : Step) (previous : StepStates) : Step * option exn :=
  let '(r, raised) :=
    do s {| previous_states := previous;
            env_datamodule := datamodule s;
            env_metric_calculator := metric_calculator s |} (results s) in
  (with_results r s, raised).

Definition Step_call (s : Step) (previous : StepStates) (dm : DataModule)
  (mc : MetricCalculator) (w : World) : Step * World * result unit :=
  let s := with_datamodule dm s in
  match run_do s previous with
  | (s, Some e) => (s, w, Raise e)
  | (s, None) =>
      (s, with_store (saver_save (results s) (get_step_id s) (name s) (store w)) w,
       Ok tt)
  end.

Definition ModelStep_call (s : Step) (previous : StepStates) (dm : DataModule)
  (mc : MetricCalculator) (w : World) : Step * World * result unit :=
  let s := with_datamodule dm s in
  let s := with_metric_calculator mc s in
  match run_do s previous with
  | (s, Some e) => (s, w, Raise e)
  | (s, None) =>
      (s, with_store (saver_save (results s) (get_step_id s) (name s) (store w)) w,
       Ok tt)
  end.

(** [step(...)]: dispatch on the class of the step. *)
Definition call (s : Step) (previous : StepStates) (dm : DataModule)
  (mc : MetricCalculator) (w : World) : Step * World * result unit :=
  match kind s with
  | PlainStep _ => Step_call s previous dm mc w
  | ModelStep _ _ => ModelStep_call s previous dm mc w
  end.

(** ** [ArtProject] *)

Record StepRecord : Type := {
  step : Step;
  checks : list Check;
  skipped_metrics : list SkippedMetric
}.

(** Modelled from the spec: [ArtProjectState] is not part of the sources.
    It holds the step states, a mapping from model name to a mapping from
    the ["idx_name"] label to results in which a model name that is not
    there yet reads as an empty mapping, and the step being run. *)
Record ArtProjectState : Type := {
  step_states : StepStates;
  current_step : option Step
}.

Record ArtProject : Type := {
  project_name : string;
  steps : list StepRecord;
  project_datamodule : DataModule;
  state : ArtProjectState;
  project_metric_calculator : MetricCalculator
}.

Definition init (nm : string) (dm : DataModule) : ArtProject :=
  {| project_name := nm; steps := []; project_datamodule := dm;
     state := {| step_states := ∅; current_step := None |};
     project_metric_calculator := {| exclusions := [] |} |}.

Definition with_steps (l : list StepRecord) (p : ArtProject) : ArtProject :=
  {| project_name := project_name p; steps := l;
     project_datamodule := project_datamodule p; state := state p;
     project_metric_calculator := project_metric_calculator p |}.

Definition with_state (st : ArtProjectState) (p : ArtProject) : ArtProject :=
  {| project_name := project_name p; steps := steps p;
     project_datamodule := project_datamodule p; state := st;
     project_metric_calculator := project_metric_calculator p |}.

Definition with_project_metric_calculator (mc : MetricCalculator)
  (p : ArtProject) : ArtProject :=
  {| project_name := project_name p; steps := steps p;
     project_datamodule := project_datamodule p; state := state p;
     project_metric_calculator := mc |}.

(** [add_step] for a step that no record of the registry holds yet: the
    record gets the step with its new index.  The registration of a step
    object that may be registered already is [Ref.add_step] below. *)
Definition add_step (s : Step) (cs : list Check) (skipped : list SkippedMetric)
  (p : ArtProject) : ArtProject :=
  let n := Z.of_nat (length (steps p)) + 1 in
  with_steps
    (steps p ++ [{| step := set_step_id n s; checks := cs;
                    skipped_metrics := skipped |}]) p.

Definition states_set (model label : string) (r : Results) (ss : StepStates)
  : StepStates :=
  <[model := <[label := r]> (default ∅ (ss !! model))]> ss.

Definition fill_step_states (s : Step) (p : ArtProject) : ArtProject :=
  with_state
    {| step_states :=
         states_set (get_model_name s) (get_name_with_id s) (get_results s)
           (step_states (state p));
       current_step := current_step (state p) |} p.

Fixpoint check_checks (s : Step) (cs : list Check) : result unit :=
  match cs with
  | [] => Ok tt
  | check :: cs' =>
      match check s with
      | Raise e => Raise e
      | Ok r =>
          if is_positive r then check_checks s cs'
          else Raise (CheckFailed (name s) (error r))
      end
  end.

Definition check_if_must_be_run (s : Step) (cs : list Check) (w : World)
  : Step * World * result bool :=
  if negb (was_run s (store w)) then (s, w, Ok true)
  else
    match load_results s (store w) with
    | Raise e => (s, w, Raise e)
    | Ok s =>
        match check_checks s cs with
        | Raise _ => (s, w, Ok true)
        | Ok _ =>
            let step_current_hash := get_hash s in
            match get_results s !! "hash" with
            | None => (s, w, Raise (KeyError "hash"))
            | Some step_saved_hash =>
                let model_changed :=
                  bool_decide (VStr step_current_hash ≠ step_saved_hash) in
                if model_changed
                then (s, print (LineModelChanged (get_full_step_name s)) w,
                      Ok true)
                else (s, w, Ok false)
            end
        end
    end.

(** ** [ArtProject.run_all] *)

Definition with_step (s : Step) (rec : StepRecord) : StepRecord :=
  {| step := s; checks := checks rec; skipped_metrics := skipped_metrics rec |}.

Definition set_current_step (s : Step) (p : ArtProject) : ArtProject :=
  with_state
    {| step_states := step_states (state p); current_step := Some s |} p.

(** The variables the loop of [run_all] works on: the project, the
    outside world and the local [steps_status]. *)
Record Run : Type := {
  run_project : ArtProject;
  run_world : World;
  steps_status : StatusDict
}.

(** The branch taken when the step is not run again: the three lines
    before [continue]. *)
Definition run_step_skip (rec : StepRecord) (s : Step) (p : ArtProject)
  (w : World) (st : StatusDict) : StepRecord * Run * option exn :=
  let st :=
    dict_set (get_full_step_name s)
      {| status := Skipped; status_results := get_results s |} st in
  let p := fill_step_states s p in
  (with_step s rec,
   {| run_project := p; run_world := w; steps_status := st |}, None).

(** The [try] statement: the call of the step, then its checks. *)
Definition try_step (s : Step) (cs : list Check) (p : ArtProject) (w : World)
  : Step * World * result unit :=
  match call s (step_states (state p)) (project_datamodule p)
          (project_metric_calculator p) w with
  | (s, w, Raise e) => (s, w, Raise e)
  | (s, w, Ok _) => (s, w, check_checks s cs)
  end.

(** The rest of the loop body, from the stamping of ["hash"] on. *)
Definition run_step_execute (rec : StepRecord) (s : Step) (p : ArtProject)
  (w : World) (st : StatusDict) : StepRecord * Run * option exn :=
  let s := add_result "hash" (VStr (get_hash s)) s in
  let '(s, w, outcome) := try_step s (checks rec) p w in
  let '(st, w) :=
    match outcome with
    | Ok _ =>
        (dict_set (get_full_step_name s)
           {| status := Completed; status_results := get_results s |} st, w)
    | Raise e =>
        (dict_set (get_full_step_name s)
           {| status := Failed; status_results := get_results s |} st,
         print (LineStepFailed (get_full_step_name s) e) w)
    end in
  let p := fill_step_states s p in
  (with_step s rec,
   {| run_project := p; run_world := w; steps_status := st |}, None).

(** The first lines of the loop body: the metric calculator is compiled
    for the record and the step becomes the current one. *)
Definition enter_step (rec : StepRecord) (p : ArtProject) : ArtProject :=
  set_current_step (step rec)
    (with_project_metric_calculator
       (compile (skipped_metrics rec) (project_metric_calculator p)) p).

(** One turn of the loop.  An exception that leaves the loop body comes
    back as [Some e], with the state the turn has reached. *)
Definition run_step (force_rerun : bool) (rec : StepRecord) (r : Run)
  : StepRecord * Run * option exn :=
  let p := enter_step rec (run_project r) in
  let s := step rec in
  match check_if_must_be_run s (checks rec) (run_world r) with
  | (s, w, Raise e) =>
      (with_step s rec,
       {| run_project := p; run_world := w; steps_status := steps_status r |},
       Some e)
  | (s, w, Ok must) =>
      if negb must && negb force_rerun
      then run_step_skip rec s p w (steps_status r)
      else run_step_execute rec s p w (steps_status r)
  end.

Fixpoint run_steps (force_rerun : bool) (recs : list StepRecord) (r : Run)
  : list StepRecord * Run * option exn :=
  match recs with
  | [] => ([], r, None)
  | rec :: rest =>
      match run_step force_rerun rec r with
      | (rec, r, Some e) => (rec :: rest, r, Some e)
      | (rec, r, None) =>
          let '(rest, r, raised) := run_steps force_rerun rest r in
          (rec :: rest, r, raised)
      end
  end.

Definition print_report (st : StatusDict) (w : World) : World :=
  foldl (fun w kv => print (StepStatus_repr (fst kv) (snd kv)) w)
    (print LineStepsStatus w) st.

(** [run_all] returns nothing in Python; here it gives back the
    [steps_status] it has printed, or the exception that ended it. *)
Definition run_all (force_rerun : bool) (p : ArtProject) (w : World)
  : ArtProject * World * result StatusDict :=
  let '(recs, r, raised) :=
    run_steps force_rerun (steps p)
      {| run_project := p; run_world := w; steps_status := [] |} in
  let p := with_steps recs (run_project r) in
  match raised with
  | Some e => (p, run_world r, Raise e)
  | None => (p, print_report (steps_status r) (run_world r), Ok (steps_status r))
  end.

(** ** [ArtProject.replace_step] *)

(** [l[i]] for a Python list of length [n]: the place it denotes. *)
Definition list_index (n : nat) (i : Z) : option nat :=
  if bool_decide (0 ≤ i < Z.of_nat n) then Some (Z.to_nat i)
  else if bool_decide (- Z.of_nat n ≤ i < 0) then Some (Z.to_nat (Z.of_nat n + i))
  else None.

Definition replace_step (s : Step) (step_id : Z) (p : ArtProject)
  : result ArtProject :=
  match list_index (length (steps p)) step_id with
  | None => Raise IndexError
  | Some i =>
      let step_id :=
        if bool_decide (step_id = -1) then Z.of_nat (length (steps p))
        else step_id in
      Ok (with_steps (alter (with_step (set_step_id step_id s)) i (steps p)) p)
  end.

(** ** The remaining methods of [ArtProject] *)

Definition get_steps (p : ArtProject) : list StepRecord := steps p.

Definition update_datamodule (dm : DataModule) (p : ArtProject) : ArtProject :=
  {| project_name := project_name p; steps := steps p;
     project_datamodule := dm; state := state p;
     project_metric_calculator := project_metric_calculator p |}.

(** ** [ModelStep.train], [validate] and [test]

    The trainer is not part of the sources.  Each method is embedded as
    what it does with what the trainer hands back: the logged metrics
    after [fit], the list of metric dicts that [validate] and [test]
    return.  They run inside the work of a step, which has no console
    here: the line that [validate] prints is left out. *)





(** ** The registry with its step objects

    [add_step] above registers a step that no record holds yet.  In the
    code a record holds a reference to the step object, and
    [set_step_id] changes that one object, whichever records point to
    it.  The module below has the objects and the references. *)
Module Ref.

(** A record of the registry: [address] is the step it points to. *)
Record Slot : Type := {
  address : nat;
  slot_checks : list Check;
  slot_skipped_metrics : list SkippedMetric
}.

Record Registry : Type := {
  objects : gmap nat Step;
  slots : list Slot
}.

(** [self.steps.append({...}); step.set_step_id(len(self.steps))] *)
Definition add_step (a : nat) (cs : list Check)
  (skipped : list SkippedMetric) (g : Registry) : Registry :=
  let slots' :=
    slots g ++ [{| address := a; slot_checks := cs;
                   slot_skipped_metrics := skipped |}] in
  {| objects := alter (set_step_id (Z.of_nat (length slots'))) a (objects g);
     slots := slots' |}.

Definition add_steps (l : list Slot) (g : Registry) : Registry :=
  foldl (λ g sl, add_step (address sl) (slot_checks sl)
                   (slot_skipped_metrics sl) g) g l.

(** The record that a slot stands for, with the step it points to. *)
Definition record (h : gmap nat Step) (sl : Slot) : option StepRecord :=
  s ← h !! address sl;
  Some {| step := s; checks := slot_checks sl;
          skipped_metrics := slot_skipped_metrics sl |}.

(** The registry as the loop of [run_all] reads it. *)
Definition records (g : Registry) : option (list StepRecord) :=
  mapM (record (objects g)) (slots g).

End Ref.

(** ** Decimal notation

    Written after the words of the spec, not after the code: the decimal
    string of a positive number is a string of the digits 0 to 9 that
    does not start with 0 and whose value in base ten is the number. *)

Definition digit_value (c : Ascii.ascii) : option N :=
  let v := Ascii.N_of_ascii c in
  if bool_decide (48 ≤ v ≤ 57)%N then Some (v - 48)%N else None.

(** The value of a digit string read from the left, after [acc]. *)
Fixpoint read_digits (s : string) (acc : N) : option N :=
  match s with
  | EmptyString => Some acc
  | String c s' =>
      match digit_value c with
      | Some d => read_digits s' (10 * acc + d)%N
      | None => None
      end
  end.

Definition decimal_of (digits : string) (n : Z) : Prop :=
  0 < n ∧
  read_digits digits 0 = Some (Z.to_N n) ∧
  ∃ c rest d, digits = String c rest ∧ digit_value c = Some d ∧ d ≠ 0%N.

(** ** Notions used in the statements *)

(** Two states of one step: index, name, class and work are the same,
    the results and what the call has set may differ. *)
Definition same_step (s' s : Step) : Prop :=
  idx s' = idx s ∧ name s' = name s ∧ kind s' = kind s ∧ do s' = do s.

(** A line that only the report at the end of [run_all] prints. *)
Definition report_line (l : Line) : Prop :=
  match l with
  | LineStepsStatus | LineStatus _ _ _ => True
  | _ => False
  end.

(** Two states of one record: only the state of the step may differ. *)
Definition same_record (rec' rec : StepRecord) : Prop :=
  same_step (step rec') (step rec) ∧ checks rec' = checks rec ∧
  skipped_metrics rec' = skipped_metrics rec.

(** The place of a step in the result store and in the step states. *)
Definition store_key (rec : StepRecord) : string * string :=
  (get_step_id (step rec), name (step rec)).

Definition state_label (rec : StepRecord) : string * string :=
  (get_model_name (step rec), get_name_with_id (step rec)).

(** A record for which the store holds results that the checks accept on
    the step and whose ["hash"] is the fingerprint of the step, whatever
    results the step holds in memory. *)
Definition reusable (w : World) (rec : StepRecord) : Prop :=
  ∃ stored,
    store w !! store_key rec = Some stored ∧
    check_checks (with_results stored (step rec)) (checks rec) = Ok tt ∧
    stored !! "hash" = Some (VStr (get_hash (step rec))).

(** What the loop makes of a record it skips: the step with the stored
    results in place of its own. *)
Definition reloaded (w : World) (rec' rec : StepRecord) : Prop :=
  ∃ stored,
    store w !! store_key rec = Some stored ∧
    rec' = with_step (with_results stored (step rec)) rec.

(** [step_states[model][label]], when both keys are there. *)
Definition states_get (ml : string * string) (ss : StepStates) : option Results :=
  ss !! ml.1 ≫= (.!! ml.2).

(** The registry numbers its records from 1. *)
Definition well_indexed (l : list StepRecord) : Prop :=
  ∀ (i : nat) rec, l !! i = Some rec → idx (step rec) = Z.of_nat i + 1.

(** A work that leaves the ["hash"] entry of the results as it finds it. *)
Definition hash_kept (work : DoEnv -> Results -> Results * option exn) : Prop :=
  ∀ env r, (work env r).1 !! "hash" = r !! "hash".

(** ** Sample steps and checks used in the examples *)

Definition do_accuracy : DoEnv -> Results -> Results * option exn :=
  fun _ r => (<["accuracy" := VNum 90]> r, None).

Definition do_crash : DoEnv -> Results -> Results * option exn :=
  fun _ r => (<["partial" := VNum 1]> r, Some (UserError "boom")).

(** A [do] that rebinds [self.results] to a new dict. *)
Definition do_rebind : DoEnv -> Results -> Results * option exn :=
  fun _ _ => ({["accuracy" := VNum 90]}, None).

Definition new_step (nm : string) (k : StepKind)
  (work : DoEnv -> Results -> Results * option exn) : Step :=
  {| idx := 0; name := nm; kind := k; results := ∅; datamodule := None;
     metric_calculator := None; do := work |}.

Definition check_has (key : string) : Check :=
  fun s =>
    Ok {| is_positive := bool_decide (is_Some (get_results s !! key));
          error := "missing " +:+ key |}.

Definition empty_world : World := {| store := ∅; console := [] |}.

Definition demo : ArtProject :=
  add_step (new_step "B" (PlainStep "hb") do_crash) [] []
    (add_step (new_step "A" (PlainStep "ha") do_accuracy) [check_has "accuracy"] []
       (init "demo" "dm")).

(** A project whose only step rebinds its results. *)
Definition rebinding : ArtProject :=
  add_step (new_step "A" (PlainStep "ha") do_rebind) [check_has "accuracy"] []
    (init "demo" "dm").

(** A store with results for step 1, named A, that have no ["hash"]. *)
Definition world_without_hash : World :=
  {| store := {[ ("1", "A") := {[ "accuracy" := VNum 90 ]} ]}; console := [] |}.

Definition steady : ArtProject :=
  add_step (new_step "B" (ModelStep "Resnet" "hm") do_accuracy) [] ["loss"]
    (add_step (new_step "A" (PlainStep "ha") do_accuracy) [check_has "accuracy"] []
       (init "demo" "dm")).

(** The project and the world a first [run_all] leaves. *)
Definition after_first_run (p : ArtProject) : ArtProject * World :=
  let '(p, w, _) := run_all false p empty_world in (p, w).

(** A record whose step has its results in the store, accepted by the
    checks and holding the fingerprint of the step under ["hash"]. *)
Definition cached (w : World) (rec : StepRecord) : Prop :=
  store w !! (get_step_id (step rec), name (step rec))
  = Some (results (step rec)) ∧
  check_checks (step rec) (checks rec) = Ok tt ∧
  results (step rec) !! "hash" = Some (VStr (get_hash (step rec))).

Definition rec_A : StepRecord :=
  {| step := set_step_id 1 (new_step "A" (PlainStep "ha") do_accuracy);
     checks := [check_has "accuracy"]; skipped_metrics := [] |}.

Definition rec_B : StepRecord :=
  {| step := set_step_id 2 (new_step "B" (PlainStep "hb") do_crash);
     checks := []; skipped_metrics := [] |}.

Definition stored_A : Results :=
  {[ "accuracy" := VNum 90; "hash" := VStr "ha" ]}.

(** A store with results for step 1, named A, stamped with its hash. *)
Definition world_cached : World :=
  {| store := {[ ("1", "A") := stored_A ]}; console := [] |}.

Definition start (p : ArtProject) (w : World) : Run :=
  {| run_project := p; run_world := w; steps_status := [] |}.

(** A record whose check asks for a result that the work does not give. *)
Definition rec_R : StepRecord :=
  {| step := set_step_id 1 (new_step "A" (PlainStep "ha") do_accuracy);
     checks := [check_has "loss"]; skipped_metrics := [] |}.

(** A store with results for step 1, named A, stamped with another hash. *)
Definition world_stale : World :=
  {| store := {[ ("1", "A") := {[ "accuracy" := VNum 80; "hash" := VStr "old" ]} ]};
     console := [] |}.

(** Settle a decidable statement about sample data by evaluation. *)
Ltac by_evaluation := refine (bool_decide_unpack _ _); vm_compute; exact I.

(** * Properties *)

(** ** Records and dictionaries *)

Lemma with_results_id (s : Step) : with_results (results s) s = s.
Proof. by destruct s. Qed.

Lemma dict_get_set_eq k v d : dict_get k (dict_set k v d) = Some v.
Proof.
  induction d as [|[k' v'] d IH]; simpl.
  - by rewrite bool_decide_eq_true_2.
  - destruct (decide (k' = k)) as [->|Hne].
    + rewrite bool_decide_eq_true_2 by done. simpl.
      by rewrite bool_decide_eq_true_2.
    + rewrite bool_decide_eq_false_2 by done. simpl.
      by rewrite bool_decide_eq_false_2.
Qed.

Lemma dict_get_set_ne k k' v d : k ≠ k' → dict_get k' (dict_set k v d) = dict_get k' d.
Proof.
  intros Hne. induction d as [|[k0 v0] d IH]; simpl.
  - by rewrite bool_decide_eq_false_2.
  - destruct (decide (k0 = k)) as [->|Hk].
    + rewrite bool_decide_eq_true_2 by done. simpl.
      by rewrite !bool_decide_eq_false_2.
    + rewrite bool_decide_eq_false_2 by done. simpl. by rewrite IH.
Qed.

Lemma states_set_lookup model label r ss :
  states_set model label r ss !! model ≫= (.!! label) = Some r.
Proof.
  unfold states_set. rewrite lookup_insert_eq. simpl. by rewrite lookup_insert_eq.
Qed.

(** ** Checks *)

Lemma check_checks_Ok s cs :
  check_checks s cs = Ok tt ↔
  Forall (λ c : Check, ∃ res, c s = Ok res ∧ is_positive res = true) cs.
Proof.
  induction cs as [|c cs IH]; simpl.
  - split; [constructor | done].
  - destruct (c s) as [res|e] eqn:Hc.
    + destruct (is_positive res) eqn:Hp.
      * rewrite IH. split.
        -- intros H. constructor; [by exists res | done].
        -- by inversion 1.
      * split; [done |]. inversion 1 as [|? ? (res' & Hres & Hpos)]. congruence.
    + split; [done |]. inversion 1 as [|? ? (res' & Hres & Hpos)]. congruence.
Qed.

Lemma check_checks_negative s cs :
  Exists (λ c : Check, ∃ res, c s = Ok res ∧ is_positive res = false) cs →
  ∃ e, check_checks s cs = Raise e.
Proof.
  induction cs as [|c cs IH]; simpl; [by inversion 1 |].
  intros H. destruct (c s) as [res|e] eqn:Hc; [| by eexists].
  destruct (is_positive res) eqn:Hp; [| by eexists].
  apply IH. inversion H as [? ? (res' & Hres & Hpos)|]; [congruence | done].
Qed.

(** ** The rerun decision *)

Lemma was_run_true s st r :
  st !! (get_step_id s, name s) = Some r → was_run s st = true.
Proof. intros H. unfold was_run, saver_exists. rewrite H. done. Qed.

Lemma was_run_false s st :
  st !! (get_step_id s, name s) = None → was_run s st = false.
Proof.
  intros H. unfold was_run, saver_exists. rewrite H.
  apply bool_decide_eq_false_2. by intros [? ?].
Qed.

Lemma load_results_Some s st r :
  st !! (get_step_id s, name s) = Some r → load_results s st = Ok (with_results r s).
Proof. intros H. unfold load_results, saver_load. by rewrite H. Qed.

(** C1: the rerun decision answers [true] without loading anything when
    the store has no entry for the step; with an entry it loads the stored
    results into the step and answers [true] as soon as a check reports
    non-positive, whatever the stored hash is; and when every check
    reports positive it answers [true] exactly when the fingerprint of the
    step differs from the loaded ["hash"] value, and [false] when they
    agree. *)
Theorem rerun_decision_order (s : Step) (cs : list Check) (w : World) :
  (store w !! (get_step_id s, name s) = None →
   check_if_must_be_run s cs w = (s, w, Ok true)) ∧
  (∀ stored, store w !! (get_step_id s, name s) = Some stored →
   (Exists (λ c : Check, ∃ res, c (with_results stored s) = Ok res
                                  ∧ is_positive res = false) cs →
    check_if_must_be_run s cs w = (with_results stored s, w, Ok true)) ∧
   (Forall (λ c : Check, ∃ res, c (with_results stored s) = Ok res
                                  ∧ is_positive res = true) cs →
    ∀ saved, stored !! "hash" = Some saved →
    ∃ w', check_if_must_be_run s cs w
          = (with_results stored s, w',
             Ok (bool_decide (VStr (get_hash s) ≠ saved)))
          ∧ store w' = store w)).
Proof.
  split.
  - intros Hnone. unfold check_if_must_be_run.
    by rewrite (was_run_false _ _ Hnone).
  - intros stored Hsome. split.
    + intros [e He]%check_checks_negative. unfold check_if_must_be_run.
      rewrite (was_run_true _ _ _ Hsome), (load_results_Some _ _ _ Hsome).
      simpl. by rewrite He.
    + intros Hok%check_checks_Ok saved Hsaved. unfold check_if_must_be_run.
      rewrite (was_run_true _ _ _ Hsome), (load_results_Some _ _ _ Hsome).
      simpl. rewrite Hok. unfold get_results. simpl. rewrite Hsaved.
      change (get_hash (with_results stored s)) with (get_hash s).
      destruct (bool_decide (VStr (get_hash s) ≠ saved)); by eexists.
Qed.

(** ** Identifiers *)

Lemma digit_value_pretty x :
  (x < 10)%N → digit_value (pretty_N_char x) = Some x.
Proof.
  intros Hx. rewrite <- (N2Nat.id x).
  assert (N.to_nat x < 10)%nat as Hn by lia. revert Hn.
  generalize (N.to_nat x). intros n Hn.
  do 10 (destruct n as [|n]; [reflexivity |]). lia.
Qed.

Lemma read_digits_pretty_go x s :
  read_digits (pretty_N_go x s) 0 = read_digits s x.
Proof.
  revert s. induction (N.lt_wf_0 x) as [x _ IH]. intros s.
  destruct (decide (x = 0%N)) as [->|Hx]; [by rewrite pretty_N_go_0 |].
  rewrite pretty_N_go_step by lia. rewrite IH by (apply N.div_lt; lia).
  simpl. rewrite digit_value_pretty by (apply N.mod_lt; lia).
  f_equal. pose proof (N.div_mod x 10 ltac:(done)). lia.
Qed.

Lemma pretty_go_leading x s :
  (0 < x)%N →
  ∃ c rest d, pretty_N_go x s = String c rest ∧ digit_value c = Some d ∧ d ≠ 0%N.
Proof.
  revert s. induction (N.lt_wf_0 x) as [x _ IH]. intros s Hx.
  rewrite pretty_N_go_step by done.
  destruct (decide (x `div` 10 = 0)%N) as [Hd|Hd].
  - rewrite Hd, pretty_N_go_0.
    assert (x < 10)%N as Hlt
      by (pose proof (N.div_mod x 10 ltac:(done));
          pose proof (N.mod_lt x 10 ltac:(done)); lia).
    rewrite N.mod_small by done. exists (pretty_N_char x), s, x.
    split; [done |]. split; [by apply digit_value_pretty | lia].
  - apply IH; [apply N.div_lt; lia | by apply N.neq_0_lt_0].
Qed.

(** [f"{n}"] is the decimal string of a positive [n]. *)
Lemma format_int_decimal n : 0 < n → decimal_of (format_int n) n.
Proof.
  intros Hn. split; [done |]. destruct n as [|q|q]; [done | | done].
  unfold format_int, pretty, pretty_Z, pretty, pretty_positive, pretty, pretty_N.
  rewrite decide_False by done. split.
  - by rewrite read_digits_pretty_go.
  - by apply pretty_go_leading.
Qed.

Lemma digit_value_bound c d : digit_value c = Some d → (d ≤ 9)%N.
Proof. unfold digit_value. case_bool_decide; intros [= <-]. lia. Qed.

Lemma digit_value_inj c c' d :
  digit_value c = Some d → digit_value c' = Some d → c = c'.
Proof.
  unfold digit_value. repeat case_bool_decide; intros [= <-] [= Heq].
  rewrite <- (Ascii.ascii_N_embedding c), <- (Ascii.ascii_N_embedding c').
  f_equal. lia.
Qed.

(** Reading after [acc] shifts [acc] by the length of the string. *)
Lemma read_digits_shift s acc v :
  read_digits s acc = Some v →
  ∃ r, (∀ acc', read_digits s acc'
                = Some (acc' * 10 ^ N.of_nat (String.length s) + r)%N) ∧
       (r < 10 ^ N.of_nat (String.length s))%N.
Proof.
  revert acc v. induction s as [|c s IH]; intros acc v; simpl.
  - intros _. exists 0%N. split; [| done]. intros acc'. f_equal. lia.
  - destruct (digit_value c) as [d|] eqn:Hd; [| done]. intros Hread.
    destruct (IH _ _ Hread) as (r & Hr & Hlt).
    pose proof (digit_value_bound _ _ Hd) as Hd9.
    assert (10 ^ N.of_nat (S (String.length s))
            = 10 * 10 ^ N.of_nat (String.length s))%N as Hpow
      by (rewrite Nat2N.inj_succ; apply N.pow_succ_r'; lia).
    exists (d * 10 ^ N.of_nat (String.length s) + r)%N. split.
    + intros acc'. rewrite Hr, Hpow. f_equal. lia.
    + rewrite Hpow. nia.
Qed.

Lemma read_digits_same_length s s' v :
  String.length s = String.length s' →
  read_digits s 0 = Some v → read_digits s' 0 = Some v → s = s'.
Proof.
  revert s' v. induction s as [|c s IH]; intros [|c' s'] v; simpl; try done.
  intros [= Hlen].
  destruct (digit_value c) as [d|] eqn:Hd; [| done].
  destruct (digit_value c') as [d'|] eqn:Hd'; [| done].
  intros H1 H2.
  destruct (read_digits_shift _ _ _ H1) as (r & Hr & Hlt).
  destruct (read_digits_shift _ _ _ H2) as (r' & Hr' & Hlt').
  rewrite Hr in H1. rewrite Hr' in H2. rewrite <- Hlen in *.
  assert (d = d' ∧ r = r') as [<- <-].
  { assert ((10 * 0 + d) * 10 ^ N.of_nat (String.length s) + r
            = (10 * 0 + d') * 10 ^ N.of_nat (String.length s) + r')%N as Heq
      by congruence.
    apply (N.div_mod_unique (10 ^ N.of_nat (String.length s))); [done | done |].
    lia. }
  f_equal; [by eapply digit_value_inj |].
  apply (IH s' r); [done | by rewrite Hr | by rewrite Hr'].
Qed.

(** A positive number has one decimal string. *)
Lemma decimal_of_unique s s' n : decimal_of s n → decimal_of s' n → s = s'.
Proof.
  intros (_ & Hv & c & rest & d & -> & Hc & Hd)
         (_ & Hv' & c' & rest' & d' & -> & Hc' & Hd').
  apply (read_digits_same_length _ _ (Z.to_N n)); [| done | done].
  assert (∀ c rest d v,
            digit_value c = Some d → d ≠ 0%N →
            read_digits (String c rest) 0 = Some v →
            (10 ^ N.of_nat (String.length rest) ≤ v
             < 10 ^ N.of_nat (S (String.length rest)))%N) as Hrange.
  { intros c0 rest0 d0 v Hc0 Hd0 Hread.
    destruct (read_digits_shift _ _ _ Hread) as (r & Hr & Hlt).
    rewrite Hr in Hread. injection Hread as <-.
    change (String.length (String c0 rest0)) with (S (String.length rest0)) in *.
    split; [| lia].
    simpl in Hr. rewrite Hc0 in Hr.
    destruct (read_digits_shift rest0 (10 * 0 + d0) _ (Hr 0%N)) as (r0 & Hr0 & _).
    pose proof (Hr 0%N) as Hr1. rewrite Hr0 in Hr1. injection Hr1 as Hr1.
    nia. }
  pose proof (Hrange _ _ _ _ Hc Hd Hv) as [Hlo Hhi].
  pose proof (Hrange _ _ _ _ Hc' Hd' Hv') as [Hlo' Hhi'].
  simpl. f_equal.
  destruct (decide (String.length rest = String.length rest')) as [|Hne];
    [done |]. exfalso.
  assert (S (String.length rest) ≤ String.length rest'
          ∨ S (String.length rest') ≤ String.length rest)%nat as [Hle|Hle] by lia.
  - assert (10 ^ N.of_nat (S (String.length rest))
            ≤ 10 ^ N.of_nat (String.length rest'))%N
      by (apply N.pow_le_mono_r; lia). lia.
  - assert (10 ^ N.of_nat (S (String.length rest'))
            ≤ 10 ^ N.of_nat (String.length rest))%N
      by (apply N.pow_le_mono_r; lia). lia.
Qed.

(** C8: a step registered as the n-th record (counting from 1) gets the
    index n.  Its identifier is the decimal string of n when it is a
    plain step, and [M_] followed by that string when it is a model step
    whose model name [M] is not empty (the bare decimal string
    otherwise); its full name is the identifier, an underscore and the
    step name. *)
Theorem identifier_scheme (g : Ref.Registry) (a : nat) (cs : list Check)
  (skipped : list SkippedMetric) (s : Step) :
  Ref.objects g !! a = Some s →
  let g' := Ref.add_step a cs skipped g in
  let n := Z.of_nat (length (Ref.slots g)) + 1 in
  ∃ s' digits,
    Ref.objects g' !! a = Some s' ∧
    last (Ref.slots g')
    = Some {| Ref.address := a; Ref.slot_checks := cs;
              Ref.slot_skipped_metrics := skipped |} ∧
    Z.of_nat (length (Ref.slots g')) = n ∧
    idx s' = n ∧ name s' = name s ∧ kind s' = kind s ∧
    decimal_of digits n ∧
    get_step_id s' =
      match kind s with
      | PlainStep _ => digits
      | ModelStep m _ => if decide (m = "") then digits else m +:+ "_" +:+ digits
      end ∧
    get_full_step_name s' = get_step_id s' +:+ "_" +:+ name s.
Proof.
  intros Hs g' n. exists (set_step_id n s), (format_int n).
  assert (Z.of_nat (length (Ref.slots g')) = n) as Hlen.
  { unfold g', n. simpl. rewrite length_app. simpl. lia. }
  split; [| split; [| split; [done |]]].
  - unfold g'. simpl. rewrite lookup_alter_eq, Hs. simpl. f_equal.
    unfold n. rewrite length_app. simpl. f_equal. lia.
  - unfold g'. simpl. apply last_snoc.
  - split; [done |]. split; [done |]. split; [done |].
    split; [apply format_int_decimal; lia |]. split; [| done].
    unfold get_step_id, get_model_name. simpl.
    destruct (kind s) as [hs|m hs]; [done |].
    destruct (decide (m = "")) as [->|Hm]; [done |].
    by rewrite bool_decide_eq_true_2.
Qed.

Example identifier_plain_3 :
  let s := set_step_id 3 (new_step "Preprocess" (PlainStep "h") do_accuracy) in
  get_step_id s = "3" ∧ get_full_step_name s = "3_Preprocess".
Proof. by vm_compute. Qed.

Example identifier_model_2 :
  let s := set_step_id 2 (new_step "Train" (ModelStep "Resnet" "h") do_accuracy) in
  get_step_id s = "Resnet_2" ∧ get_full_step_name s = "Resnet_2_Train"
  ∧ get_name_with_id s = "2_Train".
Proof. by vm_compute. Qed.

(** ** Calling a step *)

(** [call] never touches the identity of the step. *)
Lemma call_identity s prev dm mc w s' w' out :
  call s prev dm mc w = (s', w', out) →
  idx s' = idx s ∧ name s' = name s ∧ kind s' = kind s ∧ do s' = do s.
Proof.
  unfold call, Step_call, ModelStep_call, run_do. simpl.
  destruct (kind s) eqn:Hk; simpl;
    destruct (do s _ _) as [r [e|]]; intros [= <- <- <-]; repeat split; done.
Qed.

(** C2, as the code has it: the call of a step runs [do] on the results
    of the step in an environment with the shared states and the data
    module.  When [do] returns, the results it leaves are saved under
    (step id, step name); when [do] raises, the exception leaves the
    call, the step keeps the results [do] has left, and the outside
    world, the store included, is as it was. *)
Theorem call_persists_when_do_returns (s : Step) (prev : StepStates)
  (dm : DataModule) (mc : MetricCalculator) (w : World) :
  ∃ env s',
    previous_states env = prev ∧ env_datamodule env = Some dm ∧
    get_step_id s' = get_step_id s ∧ name s' = name s ∧
    match do s env (results s) with
    | (r, None) =>
        results s' = r ∧
        call s prev dm mc w
        = (s', with_store (<[(get_step_id s, name s) := r]> (store w)) w, Ok tt)
    | (r, Some e) =>
        results s' = r ∧ call s prev dm mc w = (s', w, Raise e)
    end.
Proof.
  destruct (kind s) eqn:Hk.
  - set (env := {| previous_states := prev; env_datamodule := Some dm;
                   env_metric_calculator := metric_calculator s |}).
    exists env, (with_results (do s env (results s)).1 (with_datamodule dm s)).
    repeat (split; [done |]).
    unfold call, Step_call, run_do. rewrite Hk. simpl. fold env.
    destruct (do s env (results s)) as [r [e|]]; simpl; split; try done.
  - set (env := {| previous_states := prev; env_datamodule := Some dm;
                   env_metric_calculator := Some mc |}).
    exists env, (with_results (do s env (results s)).1
                   (with_metric_calculator mc (with_datamodule dm s))).
    repeat (split; [done |]).
    unfold call, ModelStep_call, run_do. rewrite Hk. simpl. fold env.
    destruct (do s env (results s)) as [r [e|]]; simpl; split; try done.
Qed.

(** ** The loop of [run_all] *)

Lemma same_step_refl s : same_step s s.
Proof. by repeat split. Qed.

Lemma same_step_trans s1 s2 s3 : same_step s1 s2 → same_step s2 s3 → same_step s1 s3.
Proof. unfold same_step. intros (?&?&?&?) (?&?&?&?). repeat split; congruence. Qed.

Lemma same_step_names s' s :
  same_step s' s →
  get_step_id s' = get_step_id s ∧ get_full_step_name s' = get_full_step_name s
  ∧ get_name_with_id s' = get_name_with_id s ∧ get_model_name s' = get_model_name s
  ∧ get_hash s' = get_hash s.
Proof.
  intros (Hi & Hn & Hk & _).
  unfold get_full_step_name, get_name_with_id, get_step_id, get_model_name, get_hash.
  by rewrite Hi, Hn, Hk.
Qed.

Lemma check_if_must_be_run_inv s cs w s' w' out :
  check_if_must_be_run s cs w = (s', w', out) →
  same_step s' s ∧ store w' = store w ∧
  ∃ printed, console w' = console w ++ printed ∧ Forall (λ l, ¬ report_line l) printed.
Proof.
  unfold check_if_must_be_run, load_results.
  assert (∀ w0 : World, ∃ printed, console w0 = console w0 ++ printed
            ∧ Forall (λ l, ¬ report_line l) printed) as Hnil.
  { intros w0. exists []. by rewrite app_nil_r. }
  destruct (was_run s (store w)); simpl.
  - destruct (saver_load _ _ _) as [r|e]; [| by intros [= <- <- <-]].
    destruct (check_checks _ _); [| by intros [= <- <- <-]].
    unfold get_results. simpl. destruct (r !! "hash") as [saved|];
      [| by intros [= <- <- <-]].
    destruct (bool_decide _); intros [= <- <- <-]; [| done].
    split; [done |]. split; [done |]. eexists [_]. split; [done |].
    constructor; [| done]. by intros [].
  - by intros [= <- <- <-].
Qed.

Lemma call_world s prev dm mc w s' w' out :
  call s prev dm mc w = (s', w', out) → console w' = console w.
Proof.
  unfold call, Step_call, ModelStep_call, run_do.
  destruct (kind s); simpl; destruct (do s _ _) as [r [e|]];
    by intros [= <- <- <-].
Qed.

Lemma try_step_inv s cs p w s' w' out :
  try_step s cs p w = (s', w', out) → same_step s' s ∧ console w' = console w.
Proof.
  unfold try_step.
  destruct (call s _ _ _ w) as [[s1 w1] [[]|e]] eqn:Hcall;
    intros [= <- <- <-]; split;
    first [ apply (call_identity _ _ _ _ _ _ _ _ Hcall)
          | apply (call_world _ _ _ _ _ _ _ _ Hcall) ].
Qed.

(** The loop over a registry that is split in two runs the first part
    and, unless that raises, goes on with the second part. *)
Lemma run_steps_app force l1 l2 r :
  run_steps force (l1 ++ l2) r =
  match run_steps force l1 r with
  | (l1', r1, Some e) => (l1' ++ l2, r1, Some e)
  | (l1', r1, None) =>
      let '(l2', r2, raised) := run_steps force l2 r1 in
      (l1' ++ l2', r2, raised)
  end.
Proof.
  revert r. induction l1 as [|rec l1 IH]; intros r; simpl.
  - by destruct (run_steps force l2 r) as [[? ?] ?].
  - destruct (run_step force rec r) as [[rec' r'] [e|]]; [done |].
    rewrite IH. destruct (run_steps force l1 r') as [[l1' r1] [e|]]; [done |].
    by destruct (run_steps force l2 r1) as [[? ?] ?].
Qed.

Lemma run_step_execute_inv rec s p w st rec' r' raised :
  run_step_execute rec s p w st = (rec', r', raised) →
  raised = None ∧ same_step (step rec') s ∧ checks rec' = checks rec ∧
  skipped_metrics rec' = skipped_metrics rec ∧
  ∃ printed, console (run_world r') = console w ++ printed
             ∧ Forall (λ l, ¬ report_line l) printed.
Proof.
  unfold run_step_execute.
  destruct (try_step _ _ _ _) as [[s1 w1] out] eqn:Htry.
  apply try_step_inv in Htry as [Hsame Hcons].
  destruct out as [[]|e]; intros [= <- <- <-]; simpl;
    (split; [done |]); (split; [done |]); (split; [done |]); (split; [done |]).
  - exists []. by rewrite app_nil_r.
  - eexists [_]. rewrite Hcons. split; [done |]. constructor; [| done]. by intros [].
Qed.

Lemma run_step_inv force rec r rec' r' raised :
  run_step force rec r = (rec', r', raised) →
  same_step (step rec') (step rec) ∧ checks rec' = checks rec ∧
  skipped_metrics rec' = skipped_metrics rec ∧
  ∃ printed, console (run_world r') = console (run_world r) ++ printed
             ∧ Forall (λ l, ¬ report_line l) printed.
Proof.
  unfold run_step.
  destruct (check_if_must_be_run _ _ _) as [[s w] [must|e]] eqn:Hdec;
    apply check_if_must_be_run_inv in Hdec as (Hsame & Hstore & pr & Hpr & Hfa).
  - destruct (negb must && negb force).
    + unfold run_step_skip. intros [= <- <- <-]. simpl.
      repeat (split; [done |]). by exists pr.
    + intros (_ & Hs & Hc & Hk & pr' & Hpr' & Hfa')%run_step_execute_inv.
      split; [by eapply same_step_trans |]. repeat (split; [done |]).
      exists (pr ++ pr'). rewrite Hpr', Hpr, app_assoc. split; [done |].
      by apply Forall_app.
  - intros [= <- <- <-]. simpl. repeat (split; [done |]). by exists pr.
Qed.

Lemma run_steps_console force l r l' r' raised :
  run_steps force l r = (l', r', raised) →
  ∃ printed, console (run_world r') = console (run_world r) ++ printed
             ∧ Forall (λ l, ¬ report_line l) printed.
Proof.
  revert r l' r' raised. induction l as [|rec l IH]; intros r l' r' raised; simpl.
  - intros [= <- <- <-]. exists []. by rewrite app_nil_r.
  - destruct (run_step force rec r) as [[rec1 r1] [e|]] eqn:Hstep;
      apply run_step_inv in Hstep as (_ & _ & _ & pr & Hpr & Hfa).
    + intros [= <- <- <-]. by exists pr.
    + destruct (run_steps force l r1) as [[l2 r2] raised2] eqn:Hrest.
      intros [= <- <- <-]. apply IH in Hrest as (pr' & Hpr' & Hfa').
      exists (pr ++ pr'). rewrite Hpr', Hpr, app_assoc. split; [done |].
      by apply Forall_app.
Qed.

Lemma fill_step_states_lookup s p :
  step_states (state (fill_step_states s p)) !! get_model_name s
    ≫= (.!! get_name_with_id s) = Some (get_results s).
Proof. apply states_set_lookup. Qed.

(** What a turn that runs to its end leaves behind. *)
Lemma run_step_done force rec r rec' r' :
  run_step force rec r = (rec', r', None) →
  (∃ st, dict_get (get_full_step_name (step rec')) (steps_status r')
         = Some {| status := st; status_results := get_results (step rec') |}
         ∧ (st = Skipped ∨ st = Completed ∨ st = Failed)) ∧
  step_states (state (run_project r')) !! get_model_name (step rec')
    ≫= (.!! get_name_with_id (step rec')) = Some (get_results (step rec')).
Proof.
  unfold run_step.
  destruct (check_if_must_be_run _ _ _) as [[s w] [must|e]]; [| done].
  destruct (negb must && negb force).
  - unfold run_step_skip. intros [= <- <-]. simpl. split.
    + exists Skipped. rewrite dict_get_set_eq. eauto.
    + apply fill_step_states_lookup.
  - unfold run_step_execute.
    destruct (try_step _ _ _ _) as [[s1 w1] [[]|e]]; intros [= <- <-]; simpl.
    + split; [| apply fill_step_states_lookup].
      exists Completed. rewrite dict_get_set_eq. eauto.
    + split; [| apply fill_step_states_lookup].
      exists Failed. rewrite dict_get_set_eq. eauto.
Qed.

(** C7: once the loop has dealt with a step, whatever the outcome
    (skipped, completed or failed), the project state holds the results
    the step then has under its model name and its ["idx_name"] label,
    and the loop goes on to the next records from that state. *)
Theorem step_states_filled_each_turn (force : bool)
  (pre post : list StepRecord) (rec : StepRecord) (r : Run)
  (pre' : list StepRecord) (r1 : Run) (rec' : StepRecord) (r2 : Run) :
  run_steps force pre r = (pre', r1, None) →
  run_step force rec r1 = (rec', r2, None) →
  (∃ st, dict_get (get_full_step_name (step rec')) (steps_status r2)
         = Some {| status := st; status_results := get_results (step rec') |}
         ∧ (st = Skipped ∨ st = Completed ∨ st = Failed)) ∧
  step_states (state (run_project r2)) !! get_model_name (step rec')
    ≫= (.!! get_name_with_id (step rec')) = Some (get_results (step rec')) ∧
  run_steps force (pre ++ rec :: post) r =
    (let '(post', r3, raised) := run_steps force post r2 in
     (pre' ++ rec' :: post', r3, raised)).
Proof.
  intros Hpre Hstep.
  destruct (run_step_done _ _ _ _ _ Hstep) as [Hst Hstates].
  split; [done |]. split; [done |].
  rewrite run_steps_app, Hpre. simpl. rewrite Hstep.
  by destruct (run_steps force post r2) as [[? ?] ?].
Qed.

(** C4: when the call of a step raises, or the checks after the call do,
    the turn ends without an exception: the step is recorded as failed
    with the results it has at that point, the failure is printed, and
    the loop goes on with the records that follow. *)
Theorem failure_is_contained (force : bool) (pre post : list StepRecord)
  (rec : StepRecord) (r : Run) (pre' : list StepRecord) (r1 : Run)
  (s : Step) (w : World) (must : bool) (s1 : Step) (w1 : World) (e : exn) :
  let p := enter_step rec (run_project r1) in
  let s0 := add_result "hash" (VStr (get_hash s)) s in
  run_steps force pre r = (pre', r1, None) →
  check_if_must_be_run (step rec) (checks rec) (run_world r1) = (s, w, Ok must) →
  negb must && negb force = false →
  (call s0 (step_states (state p)) (project_datamodule p)
     (project_metric_calculator p) w = (s1, w1, Raise e)
   ∨ (call s0 (step_states (state p)) (project_datamodule p)
        (project_metric_calculator p) w = (s1, w1, Ok tt)
      ∧ check_checks s1 (checks rec) = Raise e)) →
  ∃ r2,
    run_step force rec r1 = (with_step s1 rec, r2, None) ∧
    dict_get (get_full_step_name s1) (steps_status r2)
    = Some {| status := Failed; status_results := get_results s1 |} ∧
    run_world r2 = print (LineStepFailed (get_full_step_name s1) e) w1 ∧
    run_steps force (pre ++ rec :: post) r =
      (let '(post', r3, raised) := run_steps force post r2 in
       (pre' ++ with_step s1 rec :: post', r3, raised)).
Proof.
  intros p s0 Hpre Hdec Hmust Hfail.
  assert (try_step s0 (checks rec) p w = (s1, w1, Raise e)) as Htry.
  { unfold try_step. destruct Hfail as [-> | [-> ->]]; done. }
  assert (∃ r2, run_step force rec r1 = (with_step s1 rec, r2, None) ∧
    dict_get (get_full_step_name s1) (steps_status r2)
    = Some {| status := Failed; status_results := get_results s1 |} ∧
    run_world r2 = print (LineStepFailed (get_full_step_name s1) e) w1)
    as (r2 & Hstep & Hst & Hw).
  { unfold run_step. rewrite Hdec, Hmust. unfold run_step_execute.
    fold s0. fold p. rewrite Htry. eexists. split; [done |]. simpl.
    by rewrite dict_get_set_eq. }
  exists r2. repeat (split; [done |]).
  rewrite run_steps_app, Hpre. simpl. rewrite Hstep.
  by destruct (run_steps force post r2) as [[? ?] ?].
Qed.

(** What [call] does to the results: it runs [do] on them. *)
Lemma call_results s prev dm mc w s' w' out :
  call s prev dm mc w = (s', w', out) →
  ∃ env, previous_states env = prev ∧ env_datamodule env = Some dm ∧
         get_results s' = (do s env (get_results s)).1.
Proof.
  unfold call, Step_call, ModelStep_call, run_do, get_results.
  destruct (kind s); simpl.
  - exists {| previous_states := prev; env_datamodule := Some dm;
              env_metric_calculator := metric_calculator s |}.
    destruct (do s _ _) as [res [e|]]; simplify_eq; done.
  - exists {| previous_states := prev; env_datamodule := Some dm;
              env_metric_calculator := Some mc |}.
    destruct (do s _ _) as [res [e|]]; simplify_eq; done.
Qed.

(** C6: when the loop is about to run a step, it first writes the
    fingerprint of the step under ["hash"], leaving the other results as
    they are, and the call, hence [do], starts from these results; the
    fingerprint is the one the rerun decision compares. *)
Theorem hash_stamped_before_call (force : bool) (rec : StepRecord) (r : Run)
  (s : Step) (w : World) (must : bool) :
  let p := enter_step rec (run_project r) in
  let s0 := add_result "hash" (VStr (get_hash s)) s in
  check_if_must_be_run (step rec) (checks rec) (run_world r) = (s, w, Ok must) →
  negb must && negb force = false →
  get_results s0 !! "hash" = Some (VStr (get_hash (step rec))) ∧
  get_hash s0 = get_hash (step rec) ∧
  (∀ k, k ≠ "hash" → get_results s0 !! k = get_results s !! k) ∧
  ∃ s1 w1 out r',
    call s0 (step_states (state p)) (project_datamodule p)
      (project_metric_calculator p) w = (s1, w1, out) ∧
    (∃ env, get_results s1 = (do (step rec) env (get_results s0)).1) ∧
    run_step force rec r = (with_step s1 rec, r', None).
Proof.
  intros p s0 Hdec Hmust.
  destruct (check_if_must_be_run_inv _ _ _ _ _ _ Hdec) as (Hsame & _ & _).
  destruct (same_step_names _ _ Hsame) as (_ & _ & _ & _ & Hhash).
  split; [| split; [| split]].
  - unfold s0, get_results. simpl. by rewrite lookup_insert_eq, Hhash.
  - done.
  - intros k Hk. unfold s0, get_results. simpl. by rewrite lookup_insert_ne.
  - destruct (call s0 (step_states (state p)) (project_datamodule p)
                (project_metric_calculator p) w) as [[s1 w1] out] eqn:Hcall.
    exists s1, w1, out.
    assert (∃ env, get_results s1 = (do (step rec) env (get_results s0)).1)
      as Henv.
    { destruct (call_results _ _ _ _ _ _ _ _ Hcall) as (env & _ & _ & Hres).
      exists env. rewrite Hres. by destruct Hsame as (_ & _ & _ & <-). }
    unfold run_step. rewrite Hdec, Hmust. unfold run_step_execute, try_step.
    fold s0. fold p. rewrite Hcall.
    destruct out as [[]|e]; [destruct (check_checks s1 (checks rec)) |];
      eexists; split; done.
Qed.

(** C5, as the code has it: with [force_rerun] the rerun decision is
    still evaluated first, for every step.  Whenever it returns, with
    either answer, the step is run: the hash is stamped, the step is
    called and the turn ends with the step completed or failed, never
    skipped.  When the decision raises, so does the turn. *)
Theorem force_rerun_runs_after_decision (rec : StepRecord) (r : Run) :
  let p := enter_step rec (run_project r) in
  match check_if_must_be_run (step rec) (checks rec) (run_world r) with
  | (s, w, Ok must) =>
      ∃ s1 w1 out r' st,
        call (add_result "hash" (VStr (get_hash s)) s) (step_states (state p))
          (project_datamodule p) (project_metric_calculator p) w
        = (s1, w1, out) ∧
        run_step true rec r = (with_step s1 rec, r', None) ∧
        dict_get (get_full_step_name s1) (steps_status r')
        = Some {| status := st; status_results := get_results s1 |} ∧
        (st = Completed ∨ st = Failed)
  | (s, w, Raise e) =>
      run_step true rec r
      = (with_step s rec,
         {| run_project := p; run_world := w; steps_status := steps_status r |},
         Some e)
  end.
Proof.
  intros p. unfold run_step. fold p.
  destruct (check_if_must_be_run _ _ _) as [[s w] [must|e]]; [| done].
  rewrite andb_false_r. unfold run_step_execute, try_step.
  destruct (call _ _ _ _ w) as [[s1 w1] out].
  exists s1, w1, out.
  destruct out as [[]|e]; [destruct (check_checks s1 (checks rec)) |];
    eexists; eexists; (split; [done |]); (split; [done |]); simpl;
    rewrite dict_get_set_eq; eauto.
Qed.

(** C10: when the store has results for a step, the checks accept them
    and they have no ["hash"] entry, the rerun decision raises a
    [KeyError] that nothing catches: [run_all] ends with it, the local
    statuses are those of the records before, the records after are not
    touched, and no line of the report is printed. *)
Theorem missing_hash_ends_the_run (force : bool) (p : ArtProject) (w : World)
  (pre post : list StepRecord) (rec : StepRecord)
  (pre' : list StepRecord) (r1 : Run) (stored : Results) :
  let r0 := {| run_project := p; run_world := w; steps_status := [] |} in
  steps p = pre ++ rec :: post →
  run_steps force pre r0 = (pre', r1, None) →
  store (run_world r1) !! (get_step_id (step rec), name (step rec)) = Some stored →
  check_checks (with_results stored (step rec)) (checks rec) = Ok tt →
  stored !! "hash" = None →
  ∃ p' r2 printed,
    run_steps force (steps p) r0 = (steps p', r2, Some (KeyError "hash")) ∧
    steps p' = pre' ++ with_step (with_results stored (step rec)) rec :: post ∧
    steps_status r2 = steps_status r1 ∧
    run_all force p w = (p', run_world r1, Raise (KeyError "hash")) ∧
    console (run_world r1) = console w ++ printed ∧
    Forall (λ l, ¬ report_line l) printed.
Proof.
  intros r0 Hsteps Hpre Hstored Hchecks Hhash.
  assert (check_if_must_be_run (step rec) (checks rec) (run_world r1)
          = (with_results stored (step rec), run_world r1, Raise (KeyError "hash")))
    as Hdec.
  { unfold check_if_must_be_run.
    rewrite (was_run_true _ _ _ Hstored), (load_results_Some _ _ _ Hstored).
    simpl. rewrite Hchecks. unfold get_results. simpl. by rewrite Hhash. }
  destruct (run_steps_console _ _ _ _ _ _ Hpre) as (printed & Hprinted & Hfa).
  assert (run_steps force (steps p) r0
          = (pre' ++ with_step (with_results stored (step rec)) rec :: post,
             {| run_project := enter_step rec (run_project r1);
                run_world := run_world r1; steps_status := steps_status r1 |},
             Some (KeyError "hash"))) as Hrun.
  { rewrite Hsteps, run_steps_app, Hpre. simpl. unfold run_step. by rewrite Hdec. }
  eexists (with_steps _ _), _, printed.
  split; [exact Hrun |]. split; [done |]. split; [done |].
  split; [| done]. unfold run_all. fold r0. by rewrite Hrun.
Qed.

(** ** A second run over cached steps *)

Lemma with_step_id rec : with_step (step rec) rec = rec.
Proof. by destruct rec. Qed.

Lemma dict_set_Forall (P : string * StepStatus → Prop) k v d :
  P (k, v) → Forall P d → Forall P (dict_set k v d).
Proof.
  intros Hv. induction 1 as [|[k' v'] d Hx Hd IH]; simpl.
  - by repeat constructor.
  - destruct (bool_decide (k' = k)); by constructor.
Qed.

Lemma dict_set_is_Some k k' v d :
  is_Some (dict_get k' d) → is_Some (dict_get k' (dict_set k v d)).
Proof.
  destruct (decide (k = k')) as [->|Hne].
  - by rewrite dict_get_set_eq.
  - by rewrite dict_get_set_ne.
Qed.

Lemma cached_decision w rec :
  cached w rec →
  check_if_must_be_run (step rec) (checks rec) w = (step rec, w, Ok false).
Proof.
  intros (Hstore & Hchecks & Hhash). unfold check_if_must_be_run.
  rewrite (was_run_true _ _ _ Hstore), (load_results_Some _ _ _ Hstore).
  simpl. rewrite with_results_id, Hchecks. unfold get_results. rewrite Hhash.
  by rewrite bool_decide_eq_false_2 by (by intros []).
Qed.

Lemma run_steps_cached l r :
  Forall (cached (run_world r)) l →
  Forall (λ kv, status kv.2 = Skipped) (steps_status r) →
  ∃ r', run_steps false l r = (l, r', None) ∧
        run_world r' = run_world r ∧
        Forall (λ kv, status kv.2 = Skipped) (steps_status r') ∧
        (∀ k, is_Some (dict_get k (steps_status r)) →
              is_Some (dict_get k (steps_status r'))) ∧
        Forall (λ rec, is_Some (dict_get (get_full_step_name (step rec))
                                  (steps_status r'))) l.
Proof.
  revert r. induction l as [|rec l IH]; intros r Hl Hst; simpl.
  - exists r. by repeat split.
  - inversion Hl as [|? ? Hrec Hl']; subst.
    unfold run_step. rewrite (cached_decision _ _ Hrec). simpl.
    unfold run_step_skip. rewrite with_step_id.
    set (r1 := {| run_project := _; run_world := run_world r; steps_status := _ |}).
    destruct (IH r1) as (r' & Hrun & Hw & Hsk & Hmono & Hall).
    { done. }
    { simpl. by apply dict_set_Forall. }
    rewrite Hrun. exists r'. split; [done |]. split; [done |]. split; [done |].
    split.
    + intros k Hk. apply Hmono. simpl. by apply dict_set_is_Some.
    + constructor; [| done]. apply Hmono. simpl. by rewrite dict_get_set_eq.
Qed.

Lemma print_report_store st w : store (print_report st w) = store w.
Proof.
  unfold print_report.
  assert (∀ w1, store (foldl (λ w kv, print (StepStatus_repr kv.1 kv.2) w) w1 st)
                = store w1) as ->; [| done].
  induction st as [|kv st IH]; intros w1; simpl; [done |]. by rewrite IH.
Qed.

Lemma reusable_decision w rec stored :
  store w !! store_key rec = Some stored →
  check_checks (with_results stored (step rec)) (checks rec) = Ok tt →
  stored !! "hash" = Some (VStr (get_hash (step rec))) →
  check_if_must_be_run (step rec) (checks rec) w
  = (with_results stored (step rec), w, Ok false).
Proof.
  intros Hstore Hchecks Hhash. unfold check_if_must_be_run.
  rewrite (was_run_true _ _ _ Hstore), (load_results_Some _ _ _ Hstore).
  simpl. rewrite Hchecks. unfold get_results. simpl. rewrite Hhash.
  by rewrite bool_decide_eq_false_2 by (by intros []).
Qed.

Lemma run_steps_reusable l r :
  Forall (reusable (run_world r)) l →
  Forall (λ kv, status kv.2 = Skipped) (steps_status r) →
  ∃ l' r', run_steps false l r = (l', r', None) ∧
        run_world r' = run_world r ∧
        Forall2 (reloaded (run_world r)) l' l ∧
        Forall (λ kv, status kv.2 = Skipped) (steps_status r') ∧
        (∀ k, is_Some (dict_get k (steps_status r)) →
              is_Some (dict_get k (steps_status r'))) ∧
        Forall (λ rec, is_Some (dict_get (get_full_step_name (step rec))
                                  (steps_status r'))) l.
Proof.
  revert r. induction l as [|rec l IH]; intros r Hl Hst; simpl.
  - exists [], r. split; [done |]. split; [done |]. split; [constructor |].
    by repeat split.
  - apply Forall_cons in Hl as [(stored & Hstore & Hchecks & Hhash) Hl].
    unfold run_step.
    rewrite (reusable_decision _ _ _ Hstore Hchecks Hhash). simpl.
    unfold run_step_skip.
    set (r1 := {| run_project := _; run_world := run_world r; steps_status := _ |}).
    destruct (IH r1) as (l' & r' & Hrun & Hw & Hre & Hsk & Hmono & Hall).
    { done. }
    { simpl. by apply dict_set_Forall. }
    rewrite Hrun. eexists (_ :: l'), r'. split; [done |]. split; [done |].
    split; [| split; [done |]; split].
    + constructor; [by exists stored | done].
    + intros k Hk. apply Hmono. simpl. by apply dict_set_is_Some.
    + constructor; [| done]. apply Hmono. simpl.
      change (get_full_step_name (with_results stored (step rec)))
        with (get_full_step_name (step rec)).
      by rewrite dict_get_set_eq.
Qed.

(** C3, as the code has it: when, for every record of the registry, the
    store has results that the checks accept on the step and whose
    ["hash"] is the fingerprint of the step, [run_all] without
    [force_rerun] ends normally and records every step as skipped;
    whatever results the steps held before, each of them then holds the
    stored results, and the store is as it was. *)
Theorem second_run_skips_cached_steps (p : ArtProject) (w : World) :
  Forall (reusable w) (steps p) →
  ∃ p' w' st,
    run_all false p w = (p', w', Ok st) ∧
    store w' = store w ∧
    Forall2 (reloaded w) (steps p') (steps p) ∧
    Forall2 (λ rec' rec, store w !! store_key rec = Some (get_results (step rec')))
      (steps p') (steps p) ∧
    Forall (λ kv, status kv.2 = Skipped) st ∧
    Forall (λ rec, ∃ v, dict_get (get_full_step_name (step rec)) st = Some v
                        ∧ status v = Skipped) (steps p).
Proof.
  intros Hre.
  destruct (run_steps_reusable (steps p)
              {| run_project := p; run_world := w; steps_status := [] |})
    as (l' & r' & Hrun & Hw & Hl' & Hsk & _ & Hall); [done | by constructor |].
  unfold run_all. rewrite Hrun. do 3 eexists. split; [done |].
  simpl in Hw, Hl'. rewrite print_report_store, Hw. simpl.
  split; [done |]. split; [done |]. split; [| split; [done |]].
  - eapply Forall2_impl; [exact Hl' |]. intros rec' rec (stored & Hst & ->). done.
  - eapply Forall_impl; [exact Hall |]. intros rec [v Hv]. exists v.
    split; [done |]. clear -Hv Hsk. induction Hsk as [|[k v'] d Hkv Hd IH];
      simpl in Hv; [done |]. case_bool_decide; [by simplify_eq | by apply IH].
Qed.

(** ** Replacing a step *)

Lemma list_index_nonneg n i :
  0 ≤ i < Z.of_nat n → list_index n i = Some (Z.to_nat i).
Proof. intros H. unfold list_index. by rewrite bool_decide_eq_true_2. Qed.

Lemma list_index_last n : n ≠ 0%nat → list_index n (-1) = Some (pred n).
Proof.
  intros H. unfold list_index.
  rewrite bool_decide_eq_false_2 by lia. rewrite bool_decide_eq_true_2 by lia.
  f_equal. lia.
Qed.

Lemma list_index_lt n i k : list_index n i = Some k → (k < n)%nat.
Proof.
  unfold list_index. repeat case_bool_decide; intros [= <-]; lia.
Qed.

Lemma replace_step_at s step_id p i :
  list_index (length (steps p)) step_id = Some i →
  let new_id := if bool_decide (step_id = -1) then Z.of_nat (length (steps p))
                else step_id in
  ∃ p', replace_step s step_id p = Ok p' ∧
        length (steps p') = length (steps p) ∧
        steps p' !! i = with_step (set_step_id new_id s) <$> steps p !! i ∧
        ∀ j, j ≠ i → steps p' !! j = steps p !! j.
Proof.
  intros Hi new_id. unfold replace_step. rewrite Hi. eexists. split; [done |].
  simpl. split; [apply length_alter |]. split.
  - apply list_lookup_alter_eq.
  - intros j Hj. by apply list_lookup_alter_ne.
Qed.


(** ** The claims that the code does not meet *)

(** C2 at a step whose [do] adds a result and raises: the call raises,
    the step keeps the partial results and nothing is stored. *)
Lemma call_raising_do_is_not_saved :
  let s := set_step_id 1 (new_step "B" (PlainStep "hb") do_crash) in
  let '(s', w', out) := call s ∅ "dm" {| exclusions := [] |} empty_world in
  out = Raise (UserError "boom") ∧
  get_results s' !! "partial" = Some (VNum 1) ∧
  store w' !! (get_step_id s, name s) = None.
Proof. by vm_compute. Qed.

(** C3 at a project whose only step rebinds its results: the first run
    completes the step and saves its results, which the check accepts;
    the second run does not skip the step, it ends with a [KeyError]. *)
Lemma second_run_after_rebinding_raises :
  let '(p1, w1, out1) := run_all false rebinding empty_world in
  (∃ st1, out1 = Ok st1 ∧ Forall (λ kv, status kv.2 = Completed) st1
          ∧ length st1 = length (steps p1)) ∧
  Forall (λ rec, store w1 !! (get_step_id (step rec), name (step rec))
                 = Some (get_results (step rec))
                 ∧ check_checks (step rec) (checks rec) = Ok tt) (steps p1) ∧
  (run_all false p1 w1).2 = Raise (KeyError "hash").
Proof.
  vm_compute. split; [| split; [| done]].
  - eexists. split; [done |]. split; [| done]. by repeat constructor.
  - by repeat constructor.
Qed.

(** C5 at a project whose step has stored results without ["hash"]:
    with [force_rerun] the decision is evaluated all the same, its
    [KeyError] ends the run and the step is not run: the world, the store
    included, is as before. *)
Lemma force_rerun_still_decides :
  ∃ p', run_all true rebinding world_without_hash
        = (p', world_without_hash, Raise (KeyError "hash")).
Proof. vm_compute. by eexists. Qed.

(** ** The theorems at sample projects *)

Lemma rerun_decision_order_witness :
  check_if_must_be_run (step rec_A) (checks rec_A) empty_world
  = (step rec_A, empty_world, Ok true) ∧
  check_if_must_be_run (step rec_A) [check_has "loss"] world_cached
  = (with_results stored_A (step rec_A), world_cached, Ok true) ∧
  ∃ w', check_if_must_be_run (step rec_A) (checks rec_A) world_cached
        = (with_results stored_A (step rec_A), w',
           Ok (bool_decide (VStr (get_hash (step rec_A)) ≠ VStr "ha")))
        ∧ store w' = store world_cached.
Proof.
  split; [| split].
  - apply (proj1 (rerun_decision_order (step rec_A) (checks rec_A) empty_world)).
    reflexivity.
  - apply (proj2 (rerun_decision_order (step rec_A) [check_has "loss"]
                    world_cached) stored_A); [reflexivity |].
    apply Exists_cons_hd. eexists. split; reflexivity.
  - apply (proj2 (rerun_decision_order (step rec_A) (checks rec_A)
                    world_cached) stored_A); [reflexivity | | reflexivity].
    apply Forall_cons_2; [| apply Forall_nil_2]. eexists. split; reflexivity.
Defined.

Lemma failure_is_contained_witness :
  ∃ pre' r1 s1 r2,
    run_steps false [rec_A] (start demo empty_world) = (pre', r1, None) ∧
    run_step false rec_B r1 = (with_step s1 rec_B, r2, None) ∧
    dict_get "2_B" (steps_status r2)
    = Some {| status := Failed; status_results := get_results s1 |} ∧
    get_results s1 !! "partial" = Some (VNum 1) ∧
    run_steps false (steps demo) (start demo empty_world)
    = (pre' ++ [with_step s1 rec_B], r2, None).
Proof.
  edestruct (failure_is_contained false [rec_A] [] rec_B
               (start demo empty_world)) as (r2 & Hstep & Hst & Hw & Hall);
    [reflexivity | reflexivity | reflexivity | left; reflexivity |].
  do 3 eexists. exists r2. split; [reflexivity |]. split; [exact Hstep |].
  split; [exact Hst |]. split; [reflexivity |]. exact Hall.
Defined.

Lemma hash_stamped_before_call_witness :
  ∃ s1 w1 out r',
    call (add_result "hash" (VStr "ha") (step rec_A)) ∅ "dm"
      {| exclusions := [] |} empty_world = (s1, w1, out) ∧
    get_results s1 !! "hash" = Some (VStr "ha") ∧
    run_step false rec_A (start demo empty_world) = (with_step s1 rec_A, r', None).
Proof.
  destruct (hash_stamped_before_call false rec_A (start demo empty_world)
              (step rec_A) empty_world true)
    as (_ & _ & _ & s1 & w1 & out & r' & Hcall & _ & Hstep);
    [reflexivity | reflexivity |].
  exists s1, w1, out, r'. split; [exact Hcall |]. split; [| exact Hstep].
  vm_compute in Hcall. by simplify_eq.
Defined.

Lemma step_states_filled_each_turn_witness :
  ∃ pre' r1 rec' r2,
    run_steps false [rec_A] (start demo empty_world) = (pre', r1, None) ∧
    run_step false rec_B r1 = (rec', r2, None) ∧
    step_states (state (run_project r2)) !! "" ≫= (.!! "2_B")
    = Some (get_results (step rec')) ∧
    get_results (step rec') !! "partial" = Some (VNum 1).
Proof.
  edestruct (step_states_filled_each_turn false [rec_A] [] rec_B
               (start demo empty_world)) as (_ & Hstates & _);
    [reflexivity | reflexivity |].
  do 4 eexists. split; [reflexivity |]. split; [reflexivity |].
  split; [exact Hstates | reflexivity].
Defined.

Lemma missing_hash_ends_the_run_witness :
  ∃ p', run_all true rebinding world_without_hash
        = (p', world_without_hash, Raise (KeyError "hash")) ∧
        steps p' = [with_step (with_results {[ "accuracy" := VNum 90 ]}
                                 (set_step_id 1 (new_step "A" (PlainStep "ha") do_rebind)))
                      {| step := new_step "A" (PlainStep "ha") do_rebind;
                         checks := [check_has "accuracy"];
                         skipped_metrics := [] |}].
Proof.
  edestruct (missing_hash_ends_the_run true rebinding world_without_hash [] [])
    as (p' & r2 & printed & _ & Hsteps & _ & Hall & _);
    [reflexivity | reflexivity | reflexivity | reflexivity | reflexivity |].
  exists p'. split; [exact Hall | exact Hsteps].
Defined.

Lemma second_run_skips_cached_steps_witness :
  let w1 := (after_first_run steady).2 in
  Forall (λ rec, get_results (step rec) = ∅) (steps steady) ∧
  ∃ p' w' st,
    run_all false steady w1 = (p', w', Ok st) ∧ store w' = store w1 ∧
    Forall2 (λ rec' rec, store w1 !! store_key rec = Some (get_results (step rec')))
      (steps p') (steps steady) ∧
    Forall (λ kv, status kv.2 = Skipped) st.
Proof.
  intros w1. split; [repeat constructor |].
  destruct (second_run_skips_cached_steps steady w1)
    as (p' & w' & st & Hrun & Hstore & _ & Hres & Hsk & _).
  { repeat apply Forall_cons_2; [| | apply Forall_nil_2];
      eexists; (split; [vm_compute; reflexivity |]); split; reflexivity. }
  by exists p', w', st.
Defined.


(** * Further properties of the code *)

(** ** The registry *)

Lemma set_step_id_twice i j s : set_step_id i (set_step_id j s) = set_step_id i s.
Proof. done. Qed.

Lemma ref_add_steps_snoc l sl g :
  Ref.add_steps (l ++ [sl]) g
  = Ref.add_step (Ref.address sl) (Ref.slot_checks sl)
      (Ref.slot_skipped_metrics sl) (Ref.add_steps l g).
Proof. unfold Ref.add_steps. by rewrite foldl_app. Qed.

Lemma ref_add_steps_spec (h : gmap nat Step) (l : list Ref.Slot) :
  let g := Ref.add_steps l {| Ref.objects := h; Ref.slots := [] |} in
  Ref.slots g = l ∧
  (∀ a, ∃ f, Ref.objects g !! a = f <$> h !! a ∧
             (f = id ∨ ∃ k, f = set_step_id k)) ∧
  (∀ a, a ∉ Ref.address <$> l → Ref.objects g !! a = h !! a) ∧
  (∀ (i : nat) sl,
     l !! i = Some sl →
     (∀ (j : nat) sl', (i < j)%nat → l !! j = Some sl' →
                       Ref.address sl' ≠ Ref.address sl) →
     Ref.objects g !! Ref.address sl
     = set_step_id (Z.of_nat i + 1) <$> h !! Ref.address sl).
Proof.
  induction l as [|sl l IH] using rev_ind; simpl.
  - split; [done |]. split; [| split; [done |]].
    + intros a. exists id. split; [by rewrite option_fmap_id | by left].
    + intros i sl Hi. by rewrite lookup_nil in Hi.
  - destruct IH as (Hslots & Hform & Hother & Hlast).
    rewrite ref_add_steps_snoc.
    set (g := Ref.add_steps l _) in *. simpl. rewrite Hslots.
    destruct sl as [a cs sk]. simpl. split; [done |].
    assert (∀ a', a' ≠ a →
              alter (set_step_id (Z.of_nat (length (l ++ [Ref.Build_Slot a cs sk]))))
                a (Ref.objects g) !! a' = Ref.objects g !! a') as Hne.
    { intros a' Ha'. by apply lookup_alter_ne. }
    assert (alter (set_step_id (Z.of_nat (length (l ++ [Ref.Build_Slot a cs sk]))))
              a (Ref.objects g) !! a
            = set_step_id (Z.of_nat (length l) + 1) <$> h !! a) as Heq.
    { rewrite lookup_alter_eq. destruct (Hform a) as (f & -> & Hf).
      rewrite <- option_fmap_compose, length_app. simpl.
      replace (Z.of_nat (length l + 1)) with (Z.of_nat (length l) + 1) by lia.
      destruct Hf as [-> | [k ->]]; done. }
    split; [| split].
    + intros a'. destruct (decide (a' = a)) as [->|Ha'].
      * eexists. split; [exact Heq |]. right. by eexists.
      * rewrite Hne by done. apply Hform.
    + intros a'. rewrite fmap_app. simpl.
      intros [Hl Ha']%not_elem_of_app. rewrite Hne; [by apply Hother |].
      intros ->. apply Ha'. by left.
    + intros i sl Hi Hafter. destruct (decide (i < length l)%nat) as [Hlt|Hge].
      * rewrite lookup_app_l in Hi by done.
        assert (Ref.address sl ≠ a) as Hsl.
        { intros Heqa. apply (Hafter (length l) (Ref.Build_Slot a cs sk));
            [done | by rewrite list_lookup_middle | done]. }
        rewrite Hne by done. apply Hlast; [done |].
        intros j sl' Hj Hsl'. apply (Hafter j sl'); [done |].
        rewrite lookup_app_l; [done |]. by eapply lookup_lt_Some.
      * assert (i = length l) as ->.
        { apply lookup_lt_Some in Hi. rewrite length_app in Hi. simpl in Hi. lia. }
        rewrite list_lookup_middle in Hi by done. injection Hi as <-. simpl.
        exact Heq.
Qed.

(** X1: registering steps one after the other on an empty registry
    leaves the records in the order of registration; a step object that
    is not registered is untouched; every registered object has as id
    the 1-based number of the last record that points to it, so an
    object registered twice has that one id in both records.  When the
    objects are pairwise distinct, the i-th record holds its step with
    the id i, counted from 1. *)
Theorem add_step_numbers_from_one (h : gmap nat Step) (l : list Ref.Slot) :
  let g := Ref.add_steps l {| Ref.objects := h; Ref.slots := [] |} in
  Ref.slots g = l ∧
  (∀ a, a ∉ Ref.address <$> l → Ref.objects g !! a = h !! a) ∧
  (∀ (i : nat) sl,
     l !! i = Some sl →
     (∀ (j : nat) sl', (i < j)%nat → l !! j = Some sl' →
                       Ref.address sl' ≠ Ref.address sl) →
     Ref.objects g !! Ref.address sl
     = set_step_id (Z.of_nat i + 1) <$> h !! Ref.address sl) ∧
  (NoDup (Ref.address <$> l) →
   ∀ vals, mapM (Ref.record h) l = Some vals →
     Ref.records g
     = Some (imap (λ i rec, with_step (set_step_id (Z.of_nat i + 1) (step rec)) rec)
               vals)
     ∧ well_indexed
         (imap (λ i rec, with_step (set_step_id (Z.of_nat i + 1) (step rec)) rec)
            vals)).
Proof.
  intros g.
  destruct (ref_add_steps_spec h l) as (Hslots & _ & Hother & Hlast).
  fold g in Hslots, Hother, Hlast.
  split; [done |]. split; [done |]. split; [done |].
  intros Hnd vals Hvals. split.
  - unfold Ref.records. rewrite Hslots. apply mapM_Some.
    apply mapM_Some in Hvals.
    apply Forall2_same_length_lookup. split.
    { rewrite length_imap. by eapply Forall2_length. }
    intros i sl rec' Hsl. rewrite list_lookup_imap.
    destruct (vals !! i) as [rec|] eqn:Hrec; [| done]. simpl. intros [= <-].
    pose proof (Forall2_lookup_lr _ _ _ _ _ _ Hvals Hsl Hrec) as Hrecord.
    unfold Ref.record in *. rewrite (Hlast i sl Hsl).
    + destruct (h !! Ref.address sl) as [s|]; simpl in *; [| done].
      by injection Hrecord as <-.
    + intros j sl' Hj Hsl' Heq.
      assert (i = j); [| lia].
      apply (NoDup_lookup _ _ _ (Ref.address sl) Hnd);
        rewrite list_lookup_fmap;
        [by rewrite Hsl | rewrite Hsl'; simpl; by rewrite Heq].
  - intros i rec'. rewrite list_lookup_imap.
    destruct (vals !! i); simpl; [| done]. by intros [= <-].
Qed.

(** One step object registered twice: both records show the second id. *)
Example add_step_same_object_twice :
  let h : gmap nat Step := {[ 0%nat := new_step "A" (PlainStep "ha") do_accuracy ]} in
  let g := Ref.add_step 0 [] [] (Ref.add_step 0 [] []
             {| Ref.objects := h; Ref.slots := [] |}) in
  match Ref.records g with
  | Some recs => map (idx ∘ step) recs = [2; 2]
  | None => False
  end.
Proof. reflexivity. Qed.

(** X2: on a registry numbered from 1 that is not empty, [replace_step]
    with the default index keeps the numbering: the new step takes the
    id of the step it replaces. *)
Theorem replace_step_default_keeps_numbering (s : Step) (p : ArtProject) :
  steps p ≠ [] →
  well_indexed (steps p) →
  ∃ p', replace_step s (-1) p = Ok p' ∧ well_indexed (steps p') ∧
        (idx ∘ step) <$> steps p' = (idx ∘ step) <$> steps p.
Proof.
  intros Hne Hwi.
  assert (length (steps p) ≠ 0%nat) as Hlen by by destruct (steps p).
  destruct (replace_step_at s (-1) p _ (list_index_last _ Hlen))
    as (p' & Hp' & Hl & Hi & Hj).
  exists p'. split; [done |].
  assert (∀ i rec', steps p' !! i = Some rec' →
            ∃ rec, steps p !! i = Some rec ∧ idx (step rec') = idx (step rec))
    as Hsame.
  { intros i rec' Hrec'. destruct (decide (i = pred (length (steps p)))) as [->|Hi'].
    - rewrite Hi in Hrec'. destruct (steps p !! pred _) as [rec|] eqn:Hrec;
        [| done]. exists rec. split; [done |].
      simpl in Hrec'. injection Hrec' as <-. simpl.
      rewrite (Hwi _ _ Hrec). lia.
    - rewrite (Hj _ Hi') in Hrec'. by exists rec'. }
  split.
  - intros i rec' Hrec'. destruct (Hsame _ _ Hrec') as (rec & Hrec & ->).
    by apply Hwi.
  - apply list_eq. intros i. rewrite !list_lookup_fmap.
    destruct (steps p' !! i) as [rec'|] eqn:Hrec'.
    + destruct (Hsame _ _ Hrec') as (rec & -> & Hidx). simpl. by rewrite Hidx.
    + apply lookup_ge_None in Hrec'. rewrite Hl in Hrec'.
      apply lookup_ge_None in Hrec'. by rewrite Hrec'.
Qed.

(** X3: [replace_step] with an index of its own (not -1) that denotes a
    record gives the new step that index as id, which is never the
    1-based number of the record: the registry is no longer numbered
    from 1. *)
Theorem replace_step_index_breaks_numbering (s : Step) (p : ArtProject)
  (step_id : Z) :
  step_id ≠ -1 →
  - Z.of_nat (length (steps p)) ≤ step_id < Z.of_nat (length (steps p)) →
  ∃ p' i rec',
    replace_step s step_id p = Ok p' ∧ steps p' !! i = Some rec' ∧
    idx (step rec') = step_id ∧ idx (step rec') ≠ Z.of_nat i + 1 ∧
    ¬ well_indexed (steps p').
Proof.
  intros Hid Hrange.
  assert (∃ i, list_index (length (steps p)) step_id = Some i
               ∧ step_id ≠ Z.of_nat i + 1) as (i & Hi & Hneq).
  { unfold list_index. destruct (decide (0 ≤ step_id)).
    - rewrite bool_decide_eq_true_2 by lia. eexists. split; [done |]. lia.
    - rewrite bool_decide_eq_false_2 by lia.
      rewrite bool_decide_eq_true_2 by lia. eexists. split; [done |]. lia. }
  destruct (replace_step_at s step_id p _ Hi) as (p' & Hp' & Hl & Hi' & _).
  rewrite bool_decide_eq_false_2 in Hi' by done.
  destruct (lookup_lt_is_Some_2 (steps p) i) as [rec Hrec];
    [by eapply list_index_lt |].
  rewrite Hrec in Hi'. simpl in Hi'.
  exists p', i, (with_step (set_step_id step_id s) rec).
  repeat (split; [done |]). intros Hwi. by apply Hneq, (Hwi _ _ Hi').
Qed.

(** X4: [replace_step] raises [IndexError] exactly when the index
    denotes no record, which includes every call on an empty registry;
    otherwise it returns a project with a registry of the same length. *)
Theorem replace_step_index_error (s : Step) (p : ArtProject) (step_id : Z) :
  (replace_step s step_id p = Raise IndexError ↔
   ¬ (- Z.of_nat (length (steps p)) ≤ step_id < Z.of_nat (length (steps p)))) ∧
  (steps p = [] → replace_step s step_id p = Raise IndexError) ∧
  (∀ p', replace_step s step_id p = Ok p' →
         length (get_steps p') = length (get_steps p)).
Proof.
  assert (replace_step s step_id p = Raise IndexError ↔
   ¬ (- Z.of_nat (length (steps p)) ≤ step_id < Z.of_nat (length (steps p))))
    as Hiff.
  { unfold replace_step, list_index. repeat case_bool_decide; split; try done; lia. }
  split; [done |]. split.
  - intros Hnil. apply Hiff. rewrite Hnil. simpl. lia.
  - intros p'. unfold replace_step.
    destruct (list_index _ _); [| done]. intros [= <-]. apply length_alter.
Qed.

(** ** Checks and merged metrics *)

Lemma check_checks_app s l1 l2 :
  check_checks s (l1 ++ l2) =
  match check_checks s l1 with
  | Ok _ => check_checks s l2
  | Raise e => Raise e
  end.
Proof.
  induction l1 as [|c l1 IH]; simpl; [done |].
  destruct (c s) as [res|e]; [| done]. by destruct (is_positive res).
Qed.

(** X5: [check_checks] stops at the first check that does not report
    positive: when the checks before it report positive, a non-positive
    answer raises the failure with the name of the step and the reason
    of that check, and a check that raises lets its own exception out;
    the checks after it play no part. *)
Theorem check_checks_stops_at_first_failure (s : Step)
  (before after : list Check) (c : Check) :
  Forall (λ c : Check, ∃ res, c s = Ok res ∧ is_positive res = true) before →
  match c s with
  | Ok res =>
      check_checks s (before ++ c :: after) =
      if is_positive res then check_checks s after
      else Raise (CheckFailed (name s) (error res))
  | Raise e => check_checks s (before ++ c :: after) = Raise e
  end.
Proof.
  intros Hbefore%check_checks_Ok. rewrite check_checks_app, Hbefore. simpl.
  by destruct (c s).
Qed.


(** ** What a turn of the loop does to the store and the registry *)

Lemma decision_false_inv s cs w s' w' :
  check_if_must_be_run s cs w = (s', w', Ok false) →
  w' = w ∧
  ∃ r, store w !! (get_step_id s, name s) = Some r ∧ s' = with_results r s ∧
       check_checks s' cs = Ok tt ∧ r !! "hash" = Some (VStr (get_hash s)).
Proof.
  unfold check_if_must_be_run, was_run, saver_exists, load_results, saver_load.
  destruct (store w !! (get_step_id s, name s)) as [r|] eqn:Hr; simpl.
  - destruct (check_checks (with_results r s) cs) as [[]|e] eqn:Hc; [| done].
    unfold get_results. simpl. destruct (r !! "hash") as [saved|] eqn:Hh; [| done].
    case_bool_decide as Hd; intros [= <- <-]. split; [done |].
    exists r. repeat (split; [done |]). f_equal.
    destruct (decide (VStr (get_hash s) = saved)) as [<-|Hne]; [done |].
    by destruct Hd.
  - done.
Qed.

Lemma call_store s prev dm mc w s' w' out :
  call s prev dm mc w = (s', w', out) →
  match out with
  | Ok _ => w' = with_store (<[(get_step_id s, name s) := get_results s']> (store w)) w
  | Raise _ => w' = w
  end.
Proof.
  unfold call, Step_call, ModelStep_call, run_do, saver_save, get_results.
  destruct (kind s) eqn:Hk; simpl; destruct (do s _ _) as [r [e|]];
    intros [= <- <- <-]; try done; simpl; do 3 f_equal;
    unfold get_step_id, get_model_name; simpl; by rewrite Hk.
Qed.

Lemma store_print l w : store (print l w) = store w.
Proof. done. Qed.

Lemma run_step_store force rec r rec' r' raised :
  run_step force rec r = (rec', r', raised) →
  store (run_world r') = store (run_world r) ∨
  store (run_world r')
  = <[store_key rec := get_results (step rec')]> (store (run_world r)).
Proof.
  unfold run_step.
  destruct (check_if_must_be_run _ _ _) as [[s w] out] eqn:Hdec.
  destruct (check_if_must_be_run_inv _ _ _ _ _ _ Hdec) as (Hsame & Hstore & _).
  destruct (same_step_names _ _ Hsame) as (Hid & _).
  destruct Hsame as (_ & Hname & _).
  destruct out as [must|e]; [| intros [= <- <- <-]; by left].
  destruct (negb must && negb force).
  - unfold run_step_skip. intros [= <- <- <-]. by left.
  - unfold run_step_execute, try_step.
    destruct (call _ _ _ _ w) as [[s1 w1] out1] eqn:Hcall.
    apply call_store in Hcall. simpl in Hcall.
    destruct out1 as [[]|e].
    + subst w1. unfold store_key. rewrite <- Hid, <- Hname, <- Hstore.
      destruct (check_checks s1 (checks rec)); intros [= <- <- <-]; by right.
    + subst w1. intros [= <- <- <-]. left. exact Hstore.
Qed.

Lemma run_steps_store force l r l' r' raised :
  run_steps force l r = (l', r', raised) →
  ∀ k, (k ∉ store_key <$> l →
        store (run_world r') !! k = store (run_world r) !! k) ∧
       (is_Some (store (run_world r) !! k) →
        is_Some (store (run_world r') !! k)).
Proof.
  revert r l' r' raised. induction l as [|rec l IH]; intros r l' r' raised; simpl.
  - by intros [= <- <- <-].
  - assert (∀ r1 : Run,
      store (run_world r1) = store (run_world r) ∨
      (∃ v, store (run_world r1) = <[store_key rec := v]> (store (run_world r))) →
      ∀ k, (k ≠ store_key rec →
            store (run_world r1) !! k = store (run_world r) !! k) ∧
           (is_Some (store (run_world r) !! k) →
            is_Some (store (run_world r1) !! k))) as Hturn.
    { intros r1 [-> | [v ->]] k; [done |]. split.
      - intros Hk. by apply lookup_insert_ne.
      - intros Hsome. rewrite lookup_insert. by case_decide. }
    destruct (run_step force rec r) as [[rec1 r1] [e|]] eqn:Hstep;
      apply run_step_store in Hstep;
      assert (store (run_world r1) = store (run_world r) ∨
              (∃ v, store (run_world r1)
                    = <[store_key rec := v]> (store (run_world r)))) as Hstep'
        by (destruct Hstep; eauto).
    + intros [= <- <- <-] k. destruct (Hturn _ Hstep' k) as [Hother Hmono].
      split; [| done]. intros [Hk _]%not_elem_of_cons. by apply Hother.
    + destruct (run_steps force l r1) as [[l2 r2] raised2] eqn:Hrest.
      intros [= <- <- <-] k. destruct (IH _ _ _ _ Hrest k) as [Hother Hmono].
      destruct (Hturn _ Hstep' k) as [Hother1 Hmono1]. split.
      * intros [Hk Hl]%not_elem_of_cons. rewrite Hother by done. by apply Hother1.
      * intros Hsome. by apply Hmono, Hmono1.
Qed.

(** X7: whatever its outcome, [run_all] never removes an entry of the
    result store and writes only under the keys (step id, step name) of
    the steps of its registry: every other entry is as it was. *)
Theorem run_all_store_is_local (force : bool) (p : ArtProject) (w : World)
  (p' : ArtProject) (w' : World) (out : result StatusDict) :
  run_all force p w = (p', w', out) →
  ∀ k, (k ∉ store_key <$> get_steps p → store w' !! k = store w !! k) ∧
       (is_Some (store w !! k) → is_Some (store w' !! k)).
Proof.
  unfold run_all.
  destruct (run_steps force (steps p) _) as [[recs r] raised] eqn:Hrun.
  pose proof (run_steps_store _ _ _ _ _ _ Hrun) as Hstore. simpl in Hstore.
  destruct raised as [e|]; intros [= <- <- <-]; [done |].
  by setoid_rewrite print_report_store.
Qed.

Lemma run_step_outcome force rec r rec' r' :
  run_step force rec r = (rec', r', None) →
  ∃ st,
    steps_status r'
    = dict_set (get_full_step_name (step rec))
        {| status := st; status_results := get_results (step rec') |}
        (steps_status r) ∧
    step_states (state (run_project r'))
    = states_set (get_model_name (step rec)) (get_name_with_id (step rec))
        (get_results (step rec')) (step_states (state (run_project r))) ∧
    same_record rec' rec ∧
    match st with
    | NotRun => False
    | Skipped =>
        force = false ∧ run_world r' = run_world r ∧
        cached (run_world r) rec' ∧
        datamodule (step rec') = datamodule (step rec)
    | Completed =>
        store (run_world r')
        = <[store_key rec := get_results (step rec')]> (store (run_world r)) ∧
        check_checks (step rec') (checks rec) = Ok tt ∧
        datamodule (step rec') = Some (project_datamodule (run_project r)) ∧
        (hash_kept (do (step rec)) →
         get_results (step rec') !! "hash" = Some (VStr (get_hash (step rec))))
    | Failed =>
        (store (run_world r') = store (run_world r) ∨
         (store (run_world r')
          = <[store_key rec := get_results (step rec')]> (store (run_world r))
          ∧ ∃ e, check_checks (step rec') (checks rec) = Raise e)) ∧
        datamodule (step rec') = Some (project_datamodule (run_project r)) ∧
        (hash_kept (do (step rec)) →
         get_results (step rec') !! "hash" = Some (VStr (get_hash (step rec))))
    end.
Proof.
  unfold run_step.
  destruct (check_if_must_be_run _ _ _) as [[s w] [must|e]] eqn:Hdec; [| done].
  destruct (check_if_must_be_run_inv _ _ _ _ _ _ Hdec) as (Hsame & Hstore & _).
  destruct (same_step_names _ _ Hsame) as (Hid & Hfull & Hlabel & Hmodel & Hhash).
  destruct (negb must && negb force) eqn:Hskip.
  - unfold run_step_skip. intros [= <- <-]. exists Skipped. simpl.
    rewrite Hfull, Hmodel, Hlabel. repeat (split; [done |]).
    apply andb_true_iff in Hskip as [Hmust Hforce].
    apply negb_true_iff in Hmust, Hforce. subst must force.
    destruct (decision_false_inv _ _ _ _ _ Hdec) as (-> & stored & Hst & -> & Hc & Hh).
    repeat (split; [done |]). done.
  - unfold run_step_execute, try_step.
    set (s0 := add_result "hash" (VStr (get_hash s)) s).
    destruct (call s0 _ _ _ w) as [[s1 w1] out1] eqn:Hcall.
    pose proof (call_identity _ _ _ _ _ _ _ _ Hcall) as Hsame1.
    change (same_step s1 s) in Hsame1.
    pose proof (same_step_trans _ _ _ Hsame1 Hsame) as Hsame2.
    destruct (same_step_names _ _ Hsame2) as (Hid2 & Hfull2 & Hlabel2 & Hmodel2 & Hhash2).
    assert (datamodule s1 = Some (project_datamodule (run_project r))) as Hdm.
    { revert Hcall. unfold call, Step_call, ModelStep_call, run_do.
      destruct (kind s0); simpl; destruct (do s _ _) as [? [?|]];
        by intros [= <- <- <-]. }
    assert (hash_kept (do (step rec)) →
            get_results s1 !! "hash" = Some (VStr (get_hash (step rec)))) as Hkept.
    { intros Hk. destruct (call_results _ _ _ _ _ _ _ _ Hcall) as (env & _ & _ & ->).
      destruct Hsame as (_ & _ & _ & Hdo). simpl. rewrite Hdo, Hk.
      unfold get_results. simpl. by rewrite lookup_insert_eq, Hhash. }
    pose proof (call_store _ _ _ _ _ _ _ _ Hcall) as Hst. simpl in Hst.
    change (get_step_id s0) with (get_step_id s) in Hst.
    change (name s0) with (name s) in Hst.
    assert (get_step_id s = get_step_id (step rec) ∧ name s = name (step rec))
      as [Hid' Hname'] by (by destruct Hsame as (_ & ? & _)).
    rewrite Hid', Hname', Hstore in Hst.
    destruct out1 as [[]|e].
    + destruct (check_checks s1 (checks rec)) as [[]|e] eqn:Hc;
        intros [= <- <-]; simpl.
      * exists Completed. simpl. rewrite Hfull2, Hmodel2, Hlabel2.
        repeat (split; [done |]). by rewrite Hst.
      * exists Failed. simpl. rewrite Hfull2, Hmodel2, Hlabel2.
        repeat (split; [done |]). split; [| done]. right. rewrite Hst.
        split; [done |]. by exists e.
    + intros [= <- <-]. exists Failed. simpl. rewrite Hfull2, Hmodel2, Hlabel2.
      repeat (split; [done |]). split; [| done]. left. by rewrite Hst.
Qed.

Lemma run_step_abort force rec r rec' r' e :
  run_step force rec r = (rec', r', Some e) →
  e = KeyError "hash" ∧
  steps_status r' = steps_status r ∧ run_world r' = run_world r ∧
  step_states (state (run_project r')) = step_states (state (run_project r)) ∧
  same_record rec' rec ∧
  datamodule (step rec') = datamodule (step rec) ∧
  ∃ stored, store (run_world r) !! store_key rec = Some stored ∧
            stored !! "hash" = None ∧
            get_results (step rec') = stored ∧
            check_checks (step rec') (checks rec) = Ok tt.
Proof.
  unfold run_step.
  destruct (check_if_must_be_run _ _ _) as [[s w] [must|e']] eqn:Hdec.
  { destruct (negb must && negb force); [done |]. unfold run_step_execute.
    by destruct (try_step _ _ _ _) as [[? ?] [?|?]]. }
  intros [= <- <- <-]. simpl. revert Hdec.
  unfold check_if_must_be_run, was_run, saver_exists, load_results, saver_load, store_key.
  destruct (store (run_world r) !! _) as [stored|]; simpl; [| done].
  destruct (check_checks _ _) as [[]|?] eqn:Hc; [| done].
  unfold get_results. simpl. destruct (stored !! "hash") eqn:Hh.
  { by destruct (bool_decide _). }
  intros [= <- <- <-]. repeat split; try done. by exists stored.
Qed.

Lemma run_step_project force rec r rec' r' raised :
  run_step force rec r = (rec', r', raised) →
  project_name (run_project r') = project_name (run_project r) ∧
  project_datamodule (run_project r') = project_datamodule (run_project r) ∧
  steps (run_project r') = steps (run_project r).
Proof.
  unfold run_step.
  destruct (check_if_must_be_run _ _ _) as [[s w] [must|e']];
    [| by intros [= <- <- <-]].
  destruct (negb must && negb force); [by intros [= <- <- <-] |].
  unfold run_step_execute.
  by destruct (try_step _ _ _ _) as [[? ?] [?|?]]; intros [= <- <- <-].
Qed.

(** An induction principle that follows the loop. *)
Lemma run_steps_ind (force : bool)
  (P : list StepRecord → Run → list StepRecord → Run → option exn → Prop) :
  (∀ r, P [] r [] r None) →
  (∀ rec l r rec1 r1 e,
     run_step force rec r = (rec1, r1, Some e) →
     P (rec :: l) r (rec1 :: l) r1 (Some e)) →
  (∀ rec l r rec1 r1 l2 r2 raised,
     run_step force rec r = (rec1, r1, None) →
     run_steps force l r1 = (l2, r2, raised) →
     P l r1 l2 r2 raised →
     P (rec :: l) r (rec1 :: l2) r2 raised) →
  ∀ l r l' r' raised,
    run_steps force l r = (l', r', raised) → P l r l' r' raised.
Proof.
  intros Hnil Hraise Hcons l. induction l as [|rec l IH]; intros r l' r' raised; simpl.
  - intros [= <- <- <-]. apply Hnil.
  - destruct (run_step force rec r) as [[rec1 r1] [e|]] eqn:Hstep.
    + intros [= <- <- <-]. by apply Hraise.
    + destruct (run_steps force l r1) as [[l2 r2] raised2] eqn:Hrest.
      intros [= <- <- <-]. eapply Hcons; eauto.
Qed.

Lemma same_record_refl rec : same_record rec rec.
Proof. by repeat split. Qed.

Lemma run_steps_shape force l r l' r' raised :
  run_steps force l r = (l', r', raised) →
  Forall2 same_record l' l ∧
  Forall2 (λ rec' rec,
             datamodule (step rec') = datamodule (step rec) ∨
             datamodule (step rec') = Some (project_datamodule (run_project r)))
    l' l ∧
  project_name (run_project r') = project_name (run_project r) ∧
  project_datamodule (run_project r') = project_datamodule (run_project r) ∧
  steps (run_project r') = steps (run_project r).
Proof.
  revert l r l' r' raised. apply run_steps_ind.
  - intros r. by repeat split.
  - intros rec l r rec1 r1 e Hstep.
    destruct (run_step_abort _ _ _ _ _ _ Hstep) as (_ & _ & _ & _ & Hrec & Hdm & _).
    destruct (run_step_project _ _ _ _ _ _ Hstep) as (? & ? & ?).
    split; [| split; [| done]].
    + constructor; [done |]. apply Forall_Forall2_diag, Forall_true. intros. apply same_record_refl.
    + constructor; [by left |]. apply Forall_Forall2_diag, Forall_true. intros. by left.
  - intros rec l r rec1 r1 l2 r2 raised Hstep _ (Hshape & Hdm & Hn & Hd & Hs).
    destruct (run_step_project _ _ _ _ _ _ Hstep) as (Hn1 & Hd1 & Hs1).
    destruct (run_step_outcome _ _ _ _ _ Hstep) as (st & _ & _ & Hrec & Hst).
    split; [by constructor |]. split; [| by rewrite Hn, Hd, Hs].
    constructor.
    + destruct st; [done | left | right | right]; by destruct_and!.
    + by rewrite <- Hd1.
Qed.

(** X8: [run_all] leaves the registry in shape, whatever its outcome:
    the records are as many as before, in the same order, each with the
    index, name, class and work of its step and with its checks and
    skipped metrics; name and data module of the project stay. *)
Theorem run_all_keeps_registry (force : bool) (p : ArtProject) (w : World)
  (p' : ArtProject) (w' : World) (out : result StatusDict) :
  run_all force p w = (p', w', out) →
  Forall2 same_record (get_steps p') (get_steps p) ∧
  (get_full_step_name ∘ step) <$> get_steps p'
  = (get_full_step_name ∘ step) <$> get_steps p ∧
  project_name p' = project_name p ∧
  project_datamodule p' = project_datamodule p.
Proof.
  unfold run_all.
  destruct (run_steps force (steps p) _) as [[recs r] raised] eqn:Hrun.
  destruct (run_steps_shape _ _ _ _ _ _ Hrun) as (Hshape & _ & Hn & Hd & _).
  assert ((get_full_step_name ∘ step) <$> recs
          = (get_full_step_name ∘ step) <$> steps p) as Hnames.
  { clear -Hshape. induction Hshape as [|rec' rec l' l (Hs & _) _ IH]; [done |].
    simpl. f_equal; [| done]. by destruct (same_step_names _ _ Hs) as (_ & ? & _). }
  by destruct raised; intros [= <- <- <-].
Qed.

(** ** The statuses and the report *)

Lemma dict_set_fresh k v d : k ∉ d.*1 → dict_set k v d = d ++ [(k, v)].
Proof.
  induction d as [|[k' v'] d IH]; simpl; [done |].
  intros [Hne Hd]%not_elem_of_cons.
  rewrite bool_decide_eq_false_2 by done. by rewrite IH.
Qed.

Lemma dict_set_keys_elem k v d k0 : k0 ∈ (dict_set k v d).*1 ↔ k0 = k ∨ k0 ∈ d.*1.
Proof.
  induction d as [|[k' v'] d IH]; simpl.
  - rewrite list_elem_of_singleton. split; [by left | intros [|H]; [done |]].
    by apply elem_of_nil in H.
  - case_bool_decide as Hk; simpl; rewrite !elem_of_cons.
    + subst k'. tauto.
    + rewrite IH. tauto.
Qed.

Lemma dict_set_keys_NoDup k v d : NoDup d.*1 → NoDup (dict_set k v d).*1.
Proof.
  induction d as [|[k' v'] d IH]; simpl; intros Hnd.
  - apply NoDup_singleton.
  - apply NoDup_cons in Hnd as [Hk' Hd]. case_bool_decide as Hk; simpl.
    + subst k'. by apply NoDup_cons.
    + apply NoDup_cons. split; [| by apply IH].
      rewrite dict_set_keys_elem. by intros [|].
Qed.

Lemma print_report_console st w :
  console (print_report st w)
  = console w ++ LineStepsStatus :: ((λ kv, StepStatus_repr kv.1 kv.2) <$> st).
Proof.
  unfold print_report.
  assert (∀ w0, console (foldl (λ w kv, print (StepStatus_repr kv.1 kv.2) w) w0 st)
                = console w0 ++ ((λ kv, StepStatus_repr kv.1 kv.2) <$> st)) as ->.
  { induction st as [|kv st IH]; intros w0; simpl; [by rewrite app_nil_r |].
    rewrite IH. simpl. by rewrite <- app_assoc. }
  simpl. by rewrite <- app_assoc.
Qed.

Lemma run_steps_statuses force l r l' r' raised :
  run_steps force l r = (l', r', raised) →
  (NoDup (steps_status r).*1 → NoDup (steps_status r').*1) ∧
  (∀ k, k ∈ (steps_status r').*1 →
        k ∈ (steps_status r).*1 ∨ k ∈ (get_full_step_name ∘ step) <$> l) ∧
  (∀ k, k ∈ (steps_status r).*1 → k ∈ (steps_status r').*1) ∧
  (raised = None →
   ∀ k, k ∈ (get_full_step_name ∘ step) <$> l → k ∈ (steps_status r').*1) ∧
  (∀ P : string * StepStatus → Prop,
     (∀ k v, (v = Completed ∨ v = Failed ∨ (v = Skipped ∧ force = false)) →
             ∀ res, P (k, {| status := v; status_results := res |})) →
     Forall P (steps_status r) → Forall P (steps_status r')).
Proof.
  revert l r l' r' raised. apply run_steps_ind.
  - intros r. split; [done |]. split; [by left |]. split; [done |].
    split; [| done]. intros _ k H. by apply elem_of_nil in H.
  - intros rec l r rec1 r1 e Hstep.
    destruct (run_step_abort _ _ _ _ _ _ Hstep) as (_ & -> & _).
    split; [done |]. split; [by left |]. split; [done |]. by split.
  - intros rec l r rec1 r1 l2 r2 raised Hstep _ (Hnd & Hin & Hmono & Hall & HP).
    destruct (run_step_outcome _ _ _ _ _ Hstep) as (st & Hst & _ & _ & Hcase).
    rewrite Hst in *. repeat split.
    + intros H. by apply Hnd, dict_set_keys_NoDup.
    + intros k [Hk|Hk]%Hin; [| right; simpl; by right].
      apply dict_set_keys_elem in Hk as [->|Hk]; [right; simpl; by left | by left].
    + intros k Hk. apply Hmono, dict_set_keys_elem. by right.
    + intros Hnone k. simpl. intros [->|Hk]%elem_of_cons; [| by apply Hall].
      apply Hmono, dict_set_keys_elem. by left.
    + intros P HPnew HPr. apply HP; [done |]. apply dict_set_Forall; [| done].
      apply HPnew. destruct st; [done | | by left | by right; left].
      right; right. by destruct_and!.
Qed.

(** X10: when [run_all] ends normally, its report has one status per
    full step name of the registry, none of them "Not run", and the
    console gets, after the lines of the turns, the heading and one line
    per status in the order of the statuses. *)
Theorem run_all_reports_every_step (force : bool) (p : ArtProject) (w : World)
  (p' : ArtProject) (w' : World) (st : StatusDict) :
  run_all force p w = (p', w', Ok st) →
  NoDup st.*1 ∧
  (∀ k, k ∈ st.*1 ↔ k ∈ (get_full_step_name ∘ step) <$> get_steps p) ∧
  Forall (λ kv, status kv.2 ≠ NotRun) st ∧
  ∃ printed,
    console w' = console w ++ printed ++ LineStepsStatus ::
                   ((λ kv, StepStatus_repr kv.1 kv.2) <$> st) ∧
    Forall (λ l, ¬ report_line l) printed.
Proof.
  unfold run_all.
  destruct (run_steps force (steps p) _) as [[recs r] raised] eqn:Hrun.
  destruct (run_steps_statuses _ _ _ _ _ _ Hrun) as (Hnd & Hin & _ & Hall & HP).
  destruct (run_steps_console _ _ _ _ _ _ Hrun) as (printed & Hprinted & Hfa).
  destruct raised as [e|]; intros [= <- <- <-]. simpl in *.
  split; [apply Hnd, NoDup_nil_2 |]. split; [| split].
  - intros k. split; [| by apply Hall].
    intros [Hk|Hk]%Hin; [by apply elem_of_nil in Hk | done].
  - apply (HP (λ kv, status kv.2 ≠ NotRun)); [| done].
    intros k v Hv res. simpl. by destruct Hv as [->|[->|[-> _]]].
  - exists printed. split; [| done].
    by rewrite print_report_console, Hprinted, <- app_assoc.
Qed.

(** X11: with [force_rerun], a run that ends normally has skipped
    nothing: every status of its report is "Completed" or "Failed". *)
Theorem force_rerun_skips_nothing (p : ArtProject) (w : World)
  (p' : ArtProject) (w' : World) (st : StatusDict) :
  run_all true p w = (p', w', Ok st) →
  Forall (λ kv, status kv.2 = Completed ∨ status kv.2 = Failed) st.
Proof.
  unfold run_all.
  destruct (run_steps true (steps p) _) as [[recs r] raised] eqn:Hrun.
  destruct (run_steps_statuses _ _ _ _ _ _ Hrun) as (_ & _ & _ & _ & HP).
  destruct raised as [e|]; intros [= <- <- <-]. simpl in *.
  apply (HP (λ kv, status kv.2 = Completed ∨ status kv.2 = Failed)); [| done].
  intros k v [->|[->|[-> ?]]] res; simpl; [by left | by right | done].
Qed.

Lemma run_steps_raises force l r l' r' e :
  run_steps force l r = (l', r', Some e) →
  e = KeyError "hash" ∧
  Exists (λ rec', ∃ stored,
            store (run_world r') !! store_key rec' = Some stored ∧
            stored !! "hash" = None ∧ get_results (step rec') = stored ∧
            check_checks (step rec') (checks rec') = Ok tt) l'.
Proof.
  revert l r l' r' e.
  assert (∀ l r l' r' raised, run_steps force l r = (l', r', raised) →
    ∀ e, raised = Some e → e = KeyError "hash" ∧
      Exists (λ rec', ∃ stored,
            store (run_world r') !! store_key rec' = Some stored ∧
            stored !! "hash" = None ∧ get_results (step rec') = stored ∧
            check_checks (step rec') (checks rec') = Ok tt) l') as H;
    [| by eauto].
  apply (run_steps_ind force (λ l r l' r' raised, ∀ e, raised = Some e → _)).
  - done.
  - intros rec l r rec1 r1 e Hstep e' [= <-].
    destruct (run_step_abort _ _ _ _ _ _ Hstep)
      as (-> & _ & -> & _ & Hrec & _ & stored & Hst & Hh & Hres & Hc).
    split; [done |]. apply Exists_cons_hd. exists stored.
    destruct Hrec as (Hs & Hchk & _).
    destruct (same_step_names _ _ Hs) as (Hid & _). destruct Hs as (_ & Hn & _).
    unfold store_key in *. by rewrite Hid, Hn, Hchk.
  - intros rec l r rec1 r1 l2 r2 raised _ _ IH e ->.
    destruct (IH e eq_refl) as [-> Hex]. split; [done |]. by apply Exists_cons_tl.
Qed.

(** X12: when [run_all] ends with the [KeyError] of a missing ["hash"],
    the registry has a step that holds results loaded from the store
    which its checks accept and which have no ["hash"] entry, and no
    line of the report has been printed. *)
Theorem missing_hash_error_comes_from_the_store (force : bool) (p : ArtProject)
  (w : World) (p' : ArtProject) (w' : World) :
  run_all force p w = (p', w', Raise (KeyError "hash")) →
  Exists (λ rec', ∃ stored,
            store w' !! store_key rec' = Some stored ∧
            stored !! "hash" = None ∧ get_results (step rec') = stored ∧
            check_checks (step rec') (checks rec') = Ok tt) (get_steps p') ∧
  ∃ printed, console w' = console w ++ printed ∧
             Forall (λ l, ¬ report_line l) printed.
Proof.
  unfold run_all.
  destruct (run_steps force (steps p) _) as [[recs r] raised] eqn:Hrun.
  destruct raised as [e'|]; intros [= <- <- ->].
  destruct (run_steps_raises _ _ _ _ _ _ Hrun) as [_ Hex].
  split; [done |]. apply (run_steps_console _ _ _ _ _ _ Hrun).
Qed.

(** ** The report and the step states at the end of a run *)

Lemma same_record_names rec' rec :
  same_record rec' rec →
  get_full_step_name (step rec') = get_full_step_name (step rec) ∧
  store_key rec' = store_key rec ∧ state_label rec' = state_label rec ∧
  get_hash (step rec') = get_hash (step rec) ∧ do (step rec') = do (step rec) ∧
  checks rec' = checks rec.
Proof.
  intros (Hs & Hc & _).
  destruct (same_step_names _ _ Hs) as (Hid & Hfull & Hlabel & Hmodel & Hhash).
  destruct Hs as (_ & Hn & _ & Hdo).
  unfold store_key, state_label. by rewrite Hid, Hn, Hlabel, Hmodel.
Qed.

Lemma run_steps_report force l r l' r' raised :
  run_steps force l r = (l', r', raised) →
  raised = None →
  NoDup ((steps_status r).*1 ++ ((get_full_step_name ∘ step) <$> l)) →
  ∃ new, steps_status r' = steps_status r ++ new ∧
         Forall2 (λ kv rec', kv.1 = get_full_step_name (step rec') ∧
                             status_results kv.2 = get_results (step rec') ∧
                             status kv.2 ≠ NotRun) new l'.
Proof.
  revert l r l' r' raised. refine (run_steps_ind _ _ _ _ _).
  - intros r _ _. exists []. by rewrite app_nil_r.
  - done.
  - intros rec l r rec1 r1 l2 r2 raised Hstep _ IH -> Hnd.
    destruct (run_step_outcome _ _ _ _ _ Hstep) as (st & Hst & _ & Hrec & Hcase).
    destruct (same_record_names _ _ Hrec) as (Hfull & _).
    simpl in Hnd. rewrite dict_set_fresh in Hst.
    2:{ apply NoDup_app in Hnd as (_ & Hnot & _). intros Hin.
        apply (Hnot _ Hin). by left. }
    destruct IH as (new & Hnew & Hall); [done | |].
    { rewrite Hst, fmap_app. simpl. by rewrite <- app_assoc. }
    eexists (_ :: new). rewrite Hnew, Hst, <- app_assoc. split; [done |].
    constructor; [| done]. simpl. split; [done |]. split; [done |].
    by destruct st.
Qed.

(** X13: when the full names of the registered steps are pairwise
    distinct, the statuses of a run that ends normally follow the
    registry: the i-th status is that of the i-th step, under its full
    name, with the results the step has at the end of the run. *)
Theorem run_all_report_follows_registry (force : bool) (p : ArtProject)
  (w : World) (p' : ArtProject) (w' : World) (st : StatusDict) :
  NoDup ((get_full_step_name ∘ step) <$> get_steps p) →
  run_all force p w = (p', w', Ok st) →
  Forall2 (λ kv rec', kv.1 = get_full_step_name (step rec') ∧
                      status_results kv.2 = get_results (step rec') ∧
                      status kv.2 ≠ NotRun) st (get_steps p').
Proof.
  intros Hnd. unfold run_all.
  destruct (run_steps force (steps p) _) as [[recs r] raised] eqn:Hrun.
  destruct raised as [e|]; intros [= <- <- <-].
  destruct (run_steps_report _ _ _ _ _ _ Hrun eq_refl) as (new & Hnew & Hall);
    [done |]. simpl in Hnew. by rewrite Hnew.
Qed.

Lemma run_steps_called force l r l' r' raised :
  run_steps force l r = (l', r', raised) →
  raised = None →
  NoDup ((steps_status r).*1 ++ ((get_full_step_name ∘ step) <$> l)) →
  ∃ new, steps_status r' = steps_status r ++ new ∧
         Forall3 (λ kv rec' rec,
                    kv.1 = get_full_step_name (step rec) ∧
                    if decide (status kv.2 = Skipped)
                    then datamodule (step rec') = datamodule (step rec)
                    else datamodule (step rec')
                         = Some (project_datamodule (run_project r)))
           new l' l.
Proof.
  revert l r l' r' raised. refine (run_steps_ind _ _ _ _ _).
  - intros r _ _. exists []. rewrite app_nil_r. split; [done | constructor].
  - done.
  - intros rec l r rec1 r1 l2 r2 raised Hstep _ IH -> Hnd.
    destruct (run_step_outcome _ _ _ _ _ Hstep) as (st & Hst & _ & Hrec & Hcase).
    destruct (run_step_project _ _ _ _ _ _ Hstep) as (_ & Hdm & _).
    simpl in Hnd. rewrite dict_set_fresh in Hst.
    2:{ apply NoDup_app in Hnd as (_ & Hnot & _). intros Hin.
        apply (Hnot _ Hin). by left. }
    destruct IH as (new & Hnew & Hall); [done | |].
    { rewrite Hst, fmap_app. simpl. by rewrite <- app_assoc. }
    eexists (_ :: new). rewrite Hnew, Hst, <- app_assoc. split; [done |].
    constructor; [| by rewrite <- Hdm]. simpl. split; [done |].
    destruct st; simpl; [done | | |]; by destruct_and!.
Qed.

(** X9: after [update_datamodule], when the full names of the steps are
    pairwise distinct and the run ends normally, the project still has
    the new data module, every step that the run has called (status
    other than "Skipped") holds the new data module, and every skipped
    step holds the one it held before the run. *)
Theorem update_datamodule_reaches_called_steps (force : bool) (dm : DataModule)
  (p : ArtProject) (w : World)
  (p' : ArtProject) (w' : World) (st : StatusDict) :
  NoDup ((get_full_step_name ∘ step) <$> get_steps p) →
  run_all force (update_datamodule dm p) w = (p', w', Ok st) →
  project_datamodule p' = dm ∧
  Forall3 (λ kv rec' rec,
             kv.1 = get_full_step_name (step rec) ∧
             if decide (status kv.2 = Skipped)
             then datamodule (step rec') = datamodule (step rec)
             else datamodule (step rec') = Some dm)
    st (get_steps p') (get_steps p).
Proof.
  intros Hnd. unfold run_all.
  destruct (run_steps force _ _) as [[recs r] raised] eqn:Hrun.
  destruct (run_steps_shape _ _ _ _ _ _ Hrun) as (_ & _ & _ & Hd & _).
  destruct raised as [e|]; intros [= <- <- <-].
  destruct (run_steps_called _ _ _ _ _ _ Hrun eq_refl) as (new & Hnew & Hall);
    [done |]. simpl in Hnew. split; [done |]. by rewrite Hnew.
Qed.

Lemma states_get_set ml model label r ss :
  states_get ml (states_set model label r ss) =
  if decide (ml = (model, label)) then Some r else states_get ml ss.
Proof.
  destruct ml as [m l]. unfold states_get, states_set. simpl.
  destruct (decide (m = model)) as [->|Hm].
  - rewrite lookup_insert_eq. simpl. destruct (decide (l = label)) as [->|Hl].
    + rewrite lookup_insert_eq. by rewrite decide_True.
    + rewrite lookup_insert_ne by done. rewrite decide_False by congruence.
      by destruct (ss !! model).
  - rewrite lookup_insert_ne by done. by rewrite decide_False by congruence.
Qed.

Lemma run_steps_states force l r l' r' raised :
  run_steps force l r = (l', r', raised) →
  (∀ ml, ml ∉ state_label <$> l →
         states_get ml (step_states (state (run_project r')))
         = states_get ml (step_states (state (run_project r)))) ∧
  (raised = None → NoDup (state_label <$> l) →
   Forall (λ rec', states_get (state_label rec')
                     (step_states (state (run_project r')))
                   = Some (get_results (step rec'))) l').
Proof.
  revert l r l' r' raised. refine (run_steps_ind _ _ _ _ _).
  - done.
  - intros rec l r rec1 r1 e Hstep.
    destruct (run_step_abort _ _ _ _ _ _ Hstep) as (_ & _ & _ & -> & _). done.
  - intros rec l r rec1 r1 l2 r2 raised Hstep _ [Hother Hall].
    destruct (run_step_outcome _ _ _ _ _ Hstep) as (st & _ & Hst & Hrec & _).
    destruct (same_record_names _ _ Hrec) as (_ & _ & Hlabel & _).
    split.
    + intros ml [Hml Hl]%not_elem_of_cons. rewrite Hother by done.
      rewrite Hst, states_get_set. by rewrite decide_False.
    + intros -> [Hrec1 Hnd]%NoDup_cons. constructor; [| by apply Hall].
      rewrite Hlabel, Hother by done. rewrite Hst, states_get_set.
      by rewrite decide_True.
Qed.

(** X14: [run_all] writes the step states only under the model name
    and label of its steps, every other entry stays; and when these
    places are pairwise distinct and the run ends normally, each of them
    holds the results its step has at the end of the run. *)
Theorem run_all_fills_step_states (force : bool) (p : ArtProject) (w : World)
  (p' : ArtProject) (w' : World) (out : result StatusDict) :
  run_all force p w = (p', w', out) →
  (∀ ml, ml ∉ state_label <$> get_steps p →
         states_get ml (step_states (state p'))
         = states_get ml (step_states (state p))) ∧
  (NoDup (state_label <$> get_steps p) →
   match out with
   | Ok _ => Forall (λ rec', states_get (state_label rec') (step_states (state p'))
                             = Some (get_results (step rec'))) (get_steps p')
   | Raise _ => True
   end).
Proof.
  unfold run_all.
  destruct (run_steps force (steps p) _) as [[recs r] raised] eqn:Hrun.
  destruct (run_steps_states _ _ _ _ _ _ Hrun) as [Hother Hall].
  destruct raised as [e|]; intros [= <- <- <-]; [done |].
  split; [done |]. intros Hnd. by apply Hall.
Qed.

(** ** Skipped, completed and rejected steps *)

Lemma run_step_status force rec r rec' r' v :
  run_step force rec r = (rec', r', None) →
  dict_get (get_full_step_name (step rec')) (steps_status r') = Some v →
  ∃ st, v = {| status := st; status_results := get_results (step rec') |} ∧
        steps_status r'
        = dict_set (get_full_step_name (step rec)) v (steps_status r).
Proof.
  intros Hstep Hv.
  destruct (run_step_outcome _ _ _ _ _ Hstep) as (st & Hst & _ & Hrec & _).
  destruct (same_record_names _ _ Hrec) as (Hfull & _).
  rewrite Hst, Hfull, dict_get_set_eq in Hv. injection Hv as <-. by exists st.
Qed.

(** X15: a turn records a step as skipped only without [force_rerun]
    and only when the store has results for the step, the checks accept
    them and their ["hash"] is the fingerprint of the step; the step
    then holds these results, it is not called and the outside world is
    as before the turn. *)
Theorem skipped_only_when_cached (force : bool) (rec : StepRecord) (r : Run)
  (rec' : StepRecord) (r' : Run) (v : StepStatus) :
  run_step force rec r = (rec', r', None) →
  dict_get (get_full_step_name (step rec')) (steps_status r') = Some v →
  status v = Skipped →
  force = false ∧ run_world r' = run_world r ∧ cached (run_world r) rec' ∧
  status_results v = get_results (step rec') ∧
  datamodule (step rec') = datamodule (step rec).
Proof.
  intros Hstep Hv Hsk.
  destruct (run_step_outcome _ _ _ _ _ Hstep) as (st & Hst & _ & Hrec & Hcase).
  destruct (same_record_names _ _ Hrec) as (Hfull & _).
  rewrite Hst, Hfull, dict_get_set_eq in Hv. injection Hv as <-.
  simpl in Hsk. subst st. by destruct_and!.
Qed.

Lemma cached_store w w' rec :
  store w' !! store_key rec = store w !! store_key rec →
  cached w rec → cached w' rec.
Proof. unfold cached, store_key. intros -> ?. done. Qed.

Lemma run_step_settled force rec r rec' r' st :
  run_step force rec r = (rec', r', None) →
  steps_status r'
  = dict_set (get_full_step_name (step rec))
      {| status := st; status_results := get_results (step rec') |}
      (steps_status r) →
  st ≠ Failed → hash_kept (do (step rec)) → cached (run_world r') rec'.
Proof.
  intros Hstep Hst' Hnf Hkept.
  destruct (run_step_outcome _ _ _ _ _ Hstep) as (st0 & Hst & _ & Hrec & Hcase).
  assert (st0 = st) as ->.
  { rewrite Hst' in Hst.
    assert (dict_get (get_full_step_name (step rec))
              (dict_set (get_full_step_name (step rec))
                 {| status := st; status_results := get_results (step rec') |}
                 (steps_status r)) = Some {| status := st0;
                   status_results := get_results (step rec') |}) as Hg
      by (rewrite Hst; apply dict_get_set_eq).
    rewrite dict_get_set_eq in Hg. by injection Hg. }
  destruct (same_record_names _ _ Hrec) as (_ & Hkey & _ & Hhash & _ & Hchecks).
  destruct st; try done.
  - destruct Hcase as (_ & -> & Hc & _). done.
  - destruct Hcase as (Hstore & Hc & _ & Hh). unfold cached.
    fold (store_key rec'). rewrite Hstore, Hkey, lookup_insert_eq, Hchecks, Hhash.
    split; [done |]. split; [done |]. by apply Hh.
Qed.

(** X16: a step that a turn completes, and whose work keeps the
    ["hash"] entry, is cached: its results are in the store with its
    fingerprint, the checks accept them, and the rerun decision taken
    right after the turn answers that the step need not run. *)
Theorem completed_step_need_not_rerun (force : bool) (rec : StepRecord)
  (r : Run) (rec' : StepRecord) (r' : Run) (v : StepStatus) :
  run_step force rec r = (rec', r', None) →
  dict_get (get_full_step_name (step rec')) (steps_status r') = Some v →
  status v = Completed →
  hash_kept (do (step rec)) →
  store (run_world r') !! store_key rec' = Some (get_results (step rec')) ∧
  get_results (step rec') !! "hash" = Some (VStr (get_hash (step rec'))) ∧
  check_if_must_be_run (step rec') (checks rec') (run_world r')
  = (step rec', run_world r', Ok false).
Proof.
  intros Hstep Hv Hc Hkept.
  destruct (run_step_status _ _ _ _ _ _ Hstep Hv) as (st & -> & Hst).
  simpl in Hc. subst st.
  assert (cached (run_world r') rec') as Hcached
    by by eapply run_step_settled.
  split; [apply Hcached |]. split; [apply Hcached |]. by apply cached_decision.
Qed.

(** X17: a step whose call returns and whose checks then reject it is
    recorded as failed, but its results are in the store all the same;
    the rerun decision taken on it afterwards finds them, has them
    rejected again and answers that the step must run. *)
Theorem rejected_step_is_saved_and_rerun (force : bool) (rec : StepRecord)
  (r : Run) (s : Step) (w : World) (must : bool) (s1 : Step) (w1 : World)
  (e : exn) :
  let p := enter_step rec (run_project r) in
  let s0 := add_result "hash" (VStr (get_hash s)) s in
  check_if_must_be_run (step rec) (checks rec) (run_world r) = (s, w, Ok must) →
  negb must && negb force = false →
  call s0 (step_states (state p)) (project_datamodule p)
    (project_metric_calculator p) w = (s1, w1, Ok tt) →
  check_checks s1 (checks rec) = Raise e →
  ∃ r', run_step force rec r = (with_step s1 rec, r', None) ∧
        dict_get (get_full_step_name s1) (steps_status r')
        = Some {| status := Failed; status_results := get_results s1 |} ∧
        store (run_world r') !! store_key (with_step s1 rec)
        = Some (get_results s1) ∧
        check_if_must_be_run s1 (checks rec) (run_world r')
        = (s1, run_world r', Ok true).
Proof.
  intros p s0 Hdec Hmust Hcall Hc.
  pose proof (call_store _ _ _ _ _ _ _ _ Hcall) as Hw1. simpl in Hw1.
  pose proof (call_identity _ _ _ _ _ _ _ _ Hcall) as Hsame.
  change (same_step s1 s) in Hsame.
  destruct (same_step_names _ _ Hsame) as (Hid & _). destruct Hsame as (_ & Hn & _).
  change (get_step_id s0) with (get_step_id s) in Hw1.
  change (name s0) with (name s) in Hw1.
  assert (store (print (LineStepFailed (get_full_step_name s1) e) w1)
            !! (get_step_id s1, name s1) = Some (get_results s1)) as Hstore.
  { rewrite Hw1, Hid, Hn. simpl. apply lookup_insert_eq. }
  eexists. split; [| split; [| split]].
  - unfold run_step. rewrite Hdec, Hmust. unfold run_step_execute, try_step.
    fold s0. fold p. rewrite Hcall, Hc. reflexivity.
  - simpl. apply dict_get_set_eq.
  - exact Hstore.
  - simpl. unfold check_if_must_be_run.
    rewrite (was_run_true _ _ _ Hstore), (load_results_Some _ _ _ Hstore).
    simpl. unfold get_results. by rewrite with_results_id, Hc.
Qed.

(** ** Running again *)

Lemma run_steps_settled force l r l' r' raised :
  run_steps force l r = (l', r', raised) →
  raised = None →
  NoDup ((steps_status r).*1 ++ ((get_full_step_name ∘ step) <$> l)) →
  NoDup (store_key <$> l) →
  Forall (λ rec, hash_kept (do (step rec))) l →
  ∀ new, steps_status r' = steps_status r ++ new →
         Forall (λ kv, status kv.2 ≠ Failed) new →
         Forall (cached (run_world r')) l'.
Proof.
  revert l r l' r' raised. refine (run_steps_ind _ _ _ _ _).
  - by constructor.
  - done.
  - intros rec l r rec1 r1 l2 r2 raised Hstep Hrest IH -> Hnd Hkeys Hkept new Hnew Hnf.
    destruct (run_step_outcome _ _ _ _ _ Hstep) as (st & Hst & _ & Hrec & _).
    pose proof Hst as Hst'. simpl in Hnd. rewrite dict_set_fresh in Hst.
    2:{ apply NoDup_app in Hnd as (_ & Hnot & _). intros Hin.
        apply (Hnot _ Hin). by left. }
    assert (NoDup ((steps_status r1).*1 ++ ((get_full_step_name ∘ step) <$> l)))
      as Hnd1.
    { rewrite Hst, fmap_app. simpl. by rewrite <- app_assoc. }
    destruct (run_steps_report _ _ _ _ _ _ Hrest eq_refl Hnd1) as (new2 & Hnew2 & _).
    rewrite Hnew2, Hst, <- app_assoc in Hnew. apply app_inv_head in Hnew.
    subst new. apply Forall_cons in Hnf as [Hnf1 Hnf2]. simpl in Hnf1.
    apply NoDup_cons in Hkeys as [Hkey Hkeys].
    apply Forall_cons in Hkept as [Hk1 Hkept].
    constructor.
    + destruct (same_record_names _ _ Hrec) as (_ & Hkey1 & _).
      apply (cached_store (run_world r1)).
      * rewrite Hkey1. by apply (run_steps_store _ _ _ _ _ _ Hrest).
      * by eapply run_step_settled.
    + by apply (IH eq_refl Hnd1 Hkeys Hkept new2).
Qed.

(** X18: take a registry whose steps have pairwise distinct full names
    and pairwise distinct store keys and whose works keep the ["hash"]
    entry.  When a run, forced or not, ends with no step failed, the
    next run without [force_rerun] ends normally too, records every step
    as skipped and leaves the steps and the store as the first run left
    them. *)
Theorem run_without_failure_is_skipped_next (force : bool) (p : ArtProject)
  (w : World) (p1 : ArtProject) (w1 : World) (st1 : StatusDict) :
  NoDup ((get_full_step_name ∘ step) <$> get_steps p) →
  NoDup (store_key <$> get_steps p) →
  Forall (λ rec, hash_kept (do (step rec))) (get_steps p) →
  run_all force p w = (p1, w1, Ok st1) →
  Forall (λ kv, status kv.2 ≠ Failed) st1 →
  ∃ p2 w2 st2,
    run_all false p1 w1 = (p2, w2, Ok st2) ∧
    get_steps p2 = get_steps p1 ∧ store w2 = store w1 ∧
    Forall (λ kv, status kv.2 = Skipped) st2 ∧
    Forall (λ rec, is_Some (dict_get (get_full_step_name (step rec)) st2))
      (get_steps p1).
Proof.
  intros Hnames Hkeys Hkept. unfold run_all at 1.
  destruct (run_steps force (steps p) _) as [[recs r] raised] eqn:Hrun.
  destruct raised as [e|]; intros [= <- <- <-] Hnf.
  assert (Forall (cached (run_world r)) recs) as Hcached.
  { eapply (run_steps_settled _ _ _ _ _ _ Hrun eq_refl); try done. }
  assert (Forall (cached (print_report (steps_status r) (run_world r))) recs)
    as Hcached'.
  { eapply Forall_impl; [exact Hcached |]. intros rec.
    apply cached_store. by rewrite print_report_store. }
  destruct (run_steps_cached recs
              {| run_project := with_steps recs (run_project r);
                 run_world := print_report (steps_status r) (run_world r);
                 steps_status := [] |})
    as (r' & Hrun' & Hw & Hsk & _ & Hall); [done | by constructor |].
  unfold run_all, get_steps. simpl. rewrite Hrun'. do 3 eexists.
  split; [done |]. simpl in Hw. by rewrite print_report_store, Hw.
Qed.

(** X19: when the store has results for a step that the checks accept
    and whose ["hash"] is not the fingerprint of the step, the turn says
    that the code has changed and runs the step: it ends completed or
    failed, and when it is completed the store holds the new results
    of the step. *)
Theorem changed_fingerprint_is_rerun (force : bool) (rec : StepRecord)
  (r : Run) (stored : Results) (saved : Value) :
  store (run_world r) !! store_key rec = Some stored →
  check_checks (with_results stored (step rec)) (checks rec) = Ok tt →
  stored !! "hash" = Some saved →
  saved ≠ VStr (get_hash (step rec)) →
  ∃ rec' r' st printed,
    run_step force rec r = (rec', r', None) ∧
    dict_get (get_full_step_name (step rec)) (steps_status r')
    = Some {| status := st; status_results := get_results (step rec') |} ∧
    (st = Completed ∨ st = Failed) ∧
    console (run_world r')
    = console (run_world r)
      ++ LineModelChanged (get_full_step_name (step rec)) :: printed ∧
    Forall (λ l, ¬ report_line l) printed ∧
    (st = Completed →
     store (run_world r') !! store_key rec = Some (get_results (step rec'))).
Proof.
  intros Hstored Hchecks Hhash Hne.
  assert (check_if_must_be_run (step rec) (checks rec) (run_world r)
          = (with_results stored (step rec),
             print (LineModelChanged (get_full_step_name (step rec))) (run_world r),
             Ok true)) as Hdec.
  { unfold check_if_must_be_run.
    rewrite (was_run_true _ _ _ Hstored), (load_results_Some _ _ _ Hstored).
    simpl. rewrite Hchecks. unfold get_results. simpl. rewrite Hhash.
    rewrite bool_decide_eq_true_2; [done |]. intros <-. by apply Hne. }
  destruct (run_step force rec r) as [[rec' r'] raised] eqn:Hstep.
  pose proof Hstep as Hstep'. unfold run_step in Hstep'. rewrite Hdec in Hstep'.
  simpl in Hstep'.
  destruct (run_step_execute_inv _ _ _ _ _ _ _ _ Hstep')
    as (-> & _ & _ & _ & printed & Hprinted & Hfa).
  simpl in Hprinted. rewrite <- app_assoc in Hprinted. simpl in Hprinted.
  destruct (run_step_outcome _ _ _ _ _ Hstep) as (st & Hst & _ & _ & Hcase).
  exists rec', r', st, printed. split; [done |]. split.
  { rewrite Hst. apply dict_get_set_eq. }
  split.
  { destruct st; [done | | by left | by right].
    destruct Hcase as (_ & Hw & _). rewrite Hw in Hprinted.
    exfalso. revert Hprinted. rewrite <- (app_nil_r (console (run_world r))) at 1.
    intros Heq%app_inv_head. done. }
  split; [by rewrite Hprinted |]. split; [done |].
  intros ->. destruct Hcase as (-> & _). apply lookup_insert_eq.
Qed.

(** ** The lines of the report and the identifiers *)


(** X21: among steps with the same model name, the identifier tells
    the index: two such steps with the same identifier have the same
    index.  So the steps without a model name of a registry numbered
    from 1 have pairwise distinct keys in the result store. *)
Theorem identifier_tells_index :
  (∀ s s', get_model_name s = get_model_name s' →
           get_step_id s = get_step_id s' → idx s = idx s') ∧
  (∀ l, well_indexed l →
        Forall (λ rec, get_model_name (step rec) = "") l →
        NoDup (store_key <$> l)).
Proof.
  assert (∀ s s', get_model_name s = get_model_name s' →
           get_step_id s = get_step_id s' → idx s = idx s') as Hinj.
  { intros s s' Hm.
    assert (∀ s0, get_step_id s0 =
              if bool_decide (get_model_name s0 ≠ "")
              then get_model_name s0 +:+ "_" +:+ format_int (idx s0)
              else format_int (idx s0)) as Hid.
    { intros s0. unfold get_step_id, get_model_name.
      destruct (kind s0); [| done]. by rewrite bool_decide_eq_false_2 by auto. }
    rewrite !Hid, Hm. case_bool_decide.
    - intros H1%(inj (String.app _)). apply (inj (String.app "_")) in H1.
      by apply (inj pretty) in H1.
    - intros H1. by apply (inj pretty) in H1. }
  split; [done |]. intros l Hwi Hplain. apply NoDup_alt. intros i j k.
  rewrite !list_lookup_fmap.
  destruct (l !! i) as [rec|] eqn:Hi; [| done].
  destruct (l !! j) as [rec'|] eqn:Hj; [| done]. simpl. intros [= <-] [= Hid _].
  rewrite Forall_forall in Hplain.
  assert (idx (step rec) = idx (step rec')) as Hidx.
  { apply Hinj; [| done].
    rewrite (Hplain rec), (Hplain rec'); [done | |];
      by eapply list_elem_of_lookup_2. }
  rewrite (Hwi _ _ Hi), (Hwi _ _ Hj) in Hidx. lia.
Qed.

(** ** The further properties at sample projects *)

Lemma do_accuracy_hash_kept : hash_kept do_accuracy.
Proof. intros env r. unfold do_accuracy. simpl. by apply lookup_insert_ne. Qed.

Lemma demo_well_indexed : well_indexed (steps demo).
Proof. intros [|[|i]] rec; simpl; intros [= <-]; reflexivity. Qed.

Lemma replace_step_default_keeps_numbering_witness :
  ∃ p', replace_step (new_step "C" (PlainStep "hc") do_accuracy) (-1) demo = Ok p'
        ∧ well_indexed (steps p')
        ∧ (idx ∘ step) <$> steps p' = [1; 2].
Proof.
  destruct (replace_step_default_keeps_numbering
              (new_step "C" (PlainStep "hc") do_accuracy) demo)
    as (p' & Hp' & Hwi & Hidx); [discriminate | exact demo_well_indexed |].
  exists p'. split; [exact Hp' |]. split; [exact Hwi | exact Hidx].
Defined.

Lemma replace_step_index_breaks_numbering_witness :
  ∃ p', replace_step (new_step "C" (PlainStep "hc") do_accuracy) 0 demo = Ok p'
        ∧ ¬ well_indexed (steps p').
Proof.
  destruct (replace_step_index_breaks_numbering
              (new_step "C" (PlainStep "hc") do_accuracy) demo 0)
    as (p' & i & rec' & Hp' & _ & _ & _ & Hnot); [lia | simpl; lia |].
  exists p'. split; [exact Hp' | exact Hnot].
Defined.

Lemma replace_step_index_error_witness :
  replace_step (new_step "C" (PlainStep "hc") do_accuracy) (-1) (init "demo" "dm")
  = Raise IndexError.
Proof.
  apply (proj1 (proj2 (replace_step_index_error
                         (new_step "C" (PlainStep "hc") do_accuracy)
                         (init "demo" "dm") (-1)))).
  reflexivity.
Defined.

Lemma check_checks_stops_at_first_failure_witness :
  check_checks (with_results stored_A (step rec_A))
    ([check_has "accuracy"] ++ check_has "loss" :: [check_has "hash"])
  = Raise (CheckFailed "A" "missing loss").
Proof.
  apply (check_checks_stops_at_first_failure (with_results stored_A (step rec_A))
           [check_has "accuracy"] [check_has "hash"] (check_has "loss")).
  apply Forall_cons_2; [| apply Forall_nil_2]. eexists. split; reflexivity.
Defined.


Lemma run_all_store_is_local_witness :
  ∃ p' w' out,
    run_all false demo world_stale = (p', w', out) ∧
    store w' !! ("9", "Z") = store world_stale !! ("9", "Z") ∧
    is_Some (store w' !! ("1", "A")).
Proof.
  do 3 eexists. split; [reflexivity |].
  split.
  - eapply (run_all_store_is_local false demo world_stale); [reflexivity |].
    by_evaluation.
  - eapply (run_all_store_is_local false demo world_stale); [reflexivity |].
    vm_compute. eauto.
Defined.

Lemma run_all_keeps_registry_witness :
  ∃ p' w' out,
    run_all false demo empty_world = (p', w', out) ∧
    (get_full_step_name ∘ step) <$> get_steps p' = ["1_A"; "2_B"].
Proof.
  do 3 eexists. split; [reflexivity |].
  eapply (run_all_keeps_registry false demo empty_world). reflexivity.
Defined.

Lemma update_datamodule_reaches_called_steps_witness :
  ∃ p' w' st,
    run_all false (update_datamodule "new" demo) world_cached = (p', w', Ok st) ∧
    (datamodule ∘ step) <$> get_steps p' = [None; Some "new"] ∧
    (λ kv, status kv.2) <$> st = [Skipped; Failed].
Proof.
  edestruct (update_datamodule_reaches_called_steps false "new" demo world_cached)
    as (_ & _); [by_evaluation | reflexivity |].
  do 3 eexists. split; [reflexivity |]. split; reflexivity.
Defined.

Lemma run_all_reports_every_step_witness :
  ∃ p' w' st,
    run_all false demo empty_world = (p', w', Ok st) ∧
    NoDup st.*1 ∧ Forall (λ kv, status kv.2 ≠ NotRun) st.
Proof.
  do 3 eexists. split; [reflexivity |].
  edestruct (run_all_reports_every_step false demo empty_world)
    as (Hnd & _ & Hall & _); [reflexivity |].
  split; [exact Hnd | exact Hall].
Defined.

Lemma force_rerun_skips_nothing_witness :
  ∃ p' w' st,
    run_all true demo world_cached = (p', w', Ok st) ∧
    Forall (λ kv, status kv.2 = Completed ∨ status kv.2 = Failed) st.
Proof.
  do 3 eexists. split; [reflexivity |].
  eapply (force_rerun_skips_nothing demo world_cached). reflexivity.
Defined.

Lemma missing_hash_error_comes_from_the_store_witness :
  ∃ p' w',
    run_all false rebinding world_without_hash = (p', w', Raise (KeyError "hash")) ∧
    ∃ printed, console w' = console world_without_hash ++ printed ∧
               Forall (λ l, ¬ report_line l) printed.
Proof.
  do 2 eexists. split; [reflexivity |].
  eapply (missing_hash_error_comes_from_the_store false rebinding world_without_hash).
  reflexivity.
Defined.

Lemma run_all_report_follows_registry_witness :
  ∃ p' w' st,
    run_all false demo empty_world = (p', w', Ok st) ∧
    Forall2 (λ kv rec', kv.1 = get_full_step_name (step rec') ∧
                        status_results kv.2 = get_results (step rec') ∧
                        status kv.2 ≠ NotRun) st (get_steps p').
Proof.
  do 3 eexists. split; [reflexivity |].
  eapply (run_all_report_follows_registry false demo empty_world); [| reflexivity].
  by_evaluation.
Defined.

Lemma run_all_fills_step_states_witness :
  ∃ p' w' st,
    run_all false demo empty_world = (p', w', Ok st) ∧
    Forall (λ rec', states_get (state_label rec') (step_states (state p'))
                    = Some (get_results (step rec'))) (get_steps p').
Proof.
  do 3 eexists. split; [reflexivity |].
  edestruct (run_all_fills_step_states false demo empty_world) as [_ Hall];
    [reflexivity |].
  apply Hall. by_evaluation.
Defined.

Lemma skipped_only_when_cached_witness :
  ∃ rec' r',
    run_step false rec_A (start demo world_cached) = (rec', r', None) ∧
    run_world r' = world_cached ∧ cached world_cached rec'.
Proof.
  do 2 eexists. split; [reflexivity |].
  edestruct (skipped_only_when_cached false rec_A (start demo world_cached))
    as (_ & Hw & Hc & _); [reflexivity | reflexivity | reflexivity |].
  split; [exact Hw | exact Hc].
Defined.

Lemma completed_step_need_not_rerun_witness :
  ∃ rec' r',
    run_step false rec_A (start demo empty_world) = (rec', r', None) ∧
    check_if_must_be_run (step rec') (checks rec') (run_world r')
    = (step rec', run_world r', Ok false).
Proof.
  do 2 eexists. split; [reflexivity |].
  eapply (completed_step_need_not_rerun false rec_A (start demo empty_world));
    [reflexivity | reflexivity | reflexivity | exact do_accuracy_hash_kept].
Defined.

Lemma rejected_step_is_saved_and_rerun_witness :
  ∃ s1 r',
    run_step false rec_R (start demo empty_world) = (with_step s1 rec_R, r', None) ∧
    store (run_world r') !! ("1", "A") = Some (get_results s1) ∧
    check_if_must_be_run s1 (checks rec_R) (run_world r')
    = (s1, run_world r', Ok true).
Proof.
  edestruct (rejected_step_is_saved_and_rerun false rec_R (start demo empty_world))
    as (r' & Hstep & _ & Hstore & Hdec);
    [reflexivity | reflexivity | reflexivity | reflexivity |].
  do 2 eexists. split; [exact Hstep |]. split; [exact Hstore | exact Hdec].
Defined.

Lemma run_without_failure_is_skipped_next_witness :
  ∃ p1 w1 st1 p2 w2 st2,
    run_all false steady empty_world = (p1, w1, Ok st1) ∧
    run_all false p1 w1 = (p2, w2, Ok st2) ∧
    Forall (λ kv, status kv.2 = Skipped) st2.
Proof.
  edestruct (run_without_failure_is_skipped_next false steady empty_world)
    as (p2 & w2 & st2 & Hrun & _ & _ & Hsk & _).
  - by_evaluation.
  - by_evaluation.
  - repeat apply Forall_cons_2; [exact do_accuracy_hash_kept ..| apply Forall_nil_2].
  - reflexivity.
  - repeat apply Forall_cons_2; [discriminate ..| apply Forall_nil_2].
  - do 3 eexists. exists p2, w2, st2. split; [reflexivity |].
    split; [exact Hrun | exact Hsk].
Defined.

Lemma changed_fingerprint_is_rerun_witness :
  ∃ rec' r' st printed,
    run_step false rec_A (start demo world_stale) = (rec', r', None) ∧
    (st = Completed ∨ st = Failed) ∧
    console (run_world r') = LineModelChanged "1_A" :: printed.
Proof.
  edestruct (changed_fingerprint_is_rerun false rec_A (start demo world_stale))
    as (rec' & r' & st & printed & Hstep & _ & Hst & Hcons & _);
    [reflexivity | reflexivity | reflexivity | discriminate |].
  exists rec', r', st, printed. split; [exact Hstep |].
  split; [exact Hst | exact Hcons].
Defined.


Lemma identifier_tells_index_witness : NoDup (store_key <$> steps demo).
Proof.
  apply (proj2 identifier_tells_index (steps demo) demo_well_indexed).
  repeat apply Forall_cons_2; [reflexivity ..| apply Forall_nil_2].
Defined.

Lemma identifier_scheme_witness :
  let g := {| Ref.objects :=
                {[ 7%nat := new_step "Train" (ModelStep "Resnet" "hm") do_accuracy ]};
              Ref.slots := [Ref.Build_Slot 3 [] []] |} in
  ∃ s', Ref.objects (Ref.add_step 7 [] [] g) !! 7%nat = Some s' ∧
        get_step_id s' = "Resnet_2" ∧ get_full_step_name s' = "Resnet_2_Train".
Proof.
  intros g.
  destruct (identifier_scheme g 7 [] []
              (new_step "Train" (ModelStep "Resnet" "hm") do_accuracy) eq_refl)
    as (s' & digits & Hs' & _).
  exists s'. split; [exact Hs' |]. vm_compute in Hs'. by simplify_eq.
Defined.

Lemma add_step_numbers_from_one_witness :
  let h : gmap nat Step :=
    {[ 0%nat := new_step "A" (PlainStep "ha") do_accuracy;
       1%nat := new_step "B" (PlainStep "hb") do_crash ]} in
  let l := [Ref.Build_Slot 0 [check_has "accuracy"] []; Ref.Build_Slot 1 [] []] in
  Ref.records (Ref.add_steps l {| Ref.objects := h; Ref.slots := [] |})
  = Some (steps demo).
Proof.
  intros h l.
  destruct (add_step_numbers_from_one h l) as (_ & _ & _ & Hrecs).
  destruct (Hrecs ltac:(by_evaluation)
              [ {| step := new_step "A" (PlainStep "ha") do_accuracy;
                   checks := [check_has "accuracy"]; skipped_metrics := [] |};
                {| step := new_step "B" (PlainStep "hb") do_crash;
                   checks := []; skipped_metrics := [] |} ] eq_refl) as [Heq _].
  exact Heq.
Defined.
